(** * Verification of the buffered Kafka writer (stream/write_buffer.go)

    The development embeds [bufferedWriter] -- its [Write], [loop], the
    [flush] closure of [loop] and [close] -- as executable Rocq functions
    over an explicit world (clock, metric counters, broker call count and
    the trace of observable effects), and proves the properties of the
    batching, retry and shutdown logic. *)

From Stdlib Require Import ZArith Lia.
From stdpp Require Import gmap strings list.

Local Open Scope Z_scope.

(** ** Go base types *)

(** [[]byte] *)
Abbreviation bytes := (list Byte.byte).

(** Go's [int] is a 64-bit signed integer on the targets of this program;
    arithmetic wraps around. *)
Definition int_min : Z := - 2 ^ 63.
Definition int_max : Z := 2 ^ 63 - 1.
Definition is_int (x : Z) : Prop := int_min <= x <= int_max.
Definition wrap_int (x : Z) : Z := (x + 2 ^ 63) mod 2 ^ 64 - 2 ^ 63.

(** [time.Duration] and the reading of the monotonic clock are counted in
    nanoseconds. *)
Definition Millisecond : Z := 1000000.
Definition Second : Z := 1000 * Millisecond.

(** Go's [error]: [None] is [nil]. *)
Abbreviation error := (option string).

(** ** Constants of the package *)

Definition defaultBufferedWriterSize : Z := 256.
Definition defaultBufferedWriterMsgQueueSize : Z := defaultBufferedWriterSize * 5.
Definition defaultWriteRetry : Z := 10.
Definition defaultWriteRetrySleep : Z := 1 * Second.
Definition defaultBufferedWriterFlushInterval : Z := 1 * Second.

Definition metricSuccessCountKey : string := "kafka_write_records_success".
Definition metricFailureCountKey : string := "kafka_write_records_failure".
Definition metricProcessMillisCountKey : string := "kafka_write_records_process_millis".

(** ** Collaborators *)

(** [kafka.Message]: the fields the writer sets.  [kafka.Message{}] leaves
    every other field at its zero value. *)
Record Message := mkMessage { Key : bytes; Value : bytes }.

Definition zeroMessage : Message := {| Key := []; Value := [] |}.

(** The collaborators that are not part of this package.
    - [ComputeHash256] is avalanchego's [hashing.ComputeHash256];
    - [WriteMessages n msgs] is the error returned by the [n]-th call
      (counted from 0) of [kafka.Writer.WriteMessages] under the
      per-attempt deadline [defaultWriteTimeout], and [WriteLatency n] the
      time that call takes;
    - [WriterClose] is the error returned by [kafka.Writer.Close]. *)
Record Env := mkEnv {
  ComputeHash256 : bytes -> bytes;
  WriteMessages : nat -> list Message -> error;
  WriteLatency : nat -> Z;
  WriterClose : error
}.

(** ** Observable effects *)

Inductive Event :=
| EvWriteMessages (msgs : list Message) (err : error)
| EvLogWarn (err : string)
| EvLogError (err : string)
| EvSleep (d : Z)
| EvCounterAdd (key : string) (v : Z)
| EvTickerStop
| EvCloseBuffer
| EvCloseDone
| EvWriterClose (err : error).

(** The world outside the worker's local variables. *)
Record World := mkWorld {
  now : Z;
  counters : gmap string Z;
  calls : nat;
  trace : list Event
}.

Definition emit (e : Event) (w : World) : World :=
  {| now := now w; counters := counters w; calls := calls w;
     trace := trace w ++ [e] |}.

Definition elapse (d : Z) (w : World) : World :=
  {| now := now w + d; counters := counters w; calls := calls w;
     trace := trace w |}.

Definition counter (key : string) (w : World) : Z :=
  default 0 (counters w !! key).

(** ** A state and panic monad *)

(** A computation reads and changes the world and returns, or panics.  A
    panic is never recovered in this package, so it ends the process; the
    deferred functions that still run while it unwinds are left out. *)

Inductive Result (A : Type) :=
| Ok (a : A) (w : World)
| Panic (msg : string) (w : World).
Arguments Ok {A} a w.
Arguments Panic {A} msg w.

Definition M (A : Type) : Type := World -> Result A.

Definition ret {A} (a : A) : M A := fun w => Ok a w.

Definition bind {A B} (m : M A) (k : A -> M B) : M B :=
  fun w => match m w with
           | Ok a w' => k a w'
           | Panic msg w' => Panic msg w'
           end.

Definition panic {A} (msg : string) : M A := fun w => Panic msg w.

#[export] Instance M_ret : MRet M := @ret.
#[export] Instance M_bind : MBind M := fun A B k m => bind m k.

Definition tell (e : Event) : M unit := fun w => Ok tt (emit e w).
Definition timeNow : M Z := fun w => Ok (now w) w.
Definition timeSleep (d : Z) : M unit :=
  fun w => Ok tt (emit (EvSleep d) (elapse d w)).

(** ** Slices *)

(** [make([]T, size)]: panics for a negative length. *)
Definition make {A} (zero : A) (size : Z) : M (list A) :=
  if size <? 0 then panic "makeslice: len out of range"
  else ret (replicate (Z.to_nat size) zero).

(** [s[:n]] on a slice whose capacity is its length. *)
Definition slice_to {A} (s : list A) (n : Z) : option (list A) :=
  if (0 <=? n) && (n <=? Z.of_nat (length s)) then Some (take (Z.to_nat n) s)
  else None.

(** [s[i] = x] *)
Definition slice_set {A} (s : list A) (i : Z) (x : A) : option (list A) :=
  if (0 <=? i) && (i <? Z.of_nat (length s)) then Some (<[Z.to_nat i := x]> s)
  else None.

(** ** Metrics *)

(** Modelled from the spec: [metrics.Prometheus.CounterAdd], of the
    repository's package [services/metrics], which is not part of the
    sources at hand.  The named counter grows by [v]. *)
Definition CounterAdd (key : string) (v : Z) : M unit :=
  fun w => Ok tt
    {| now := now w;
       counters := <[key := counter key w + v]> (counters w);
       calls := calls w;
       trace := trace w ++ [EvCounterAdd key v] |}.

(** Modelled from the spec: [metrics.NewCollectors] over
    [NewCounterObserveMillisCollect] and [NewSuccessFailCounterAdd], of the
    absent package [services/metrics].  The spec has a success signal
    "with the batch size and the elapsed processing duration" and a failure
    signal after exhausted retries; the value [v] is what [flush] passes,
    [float64(bufferSize)], an integer that [float64] represents exactly. *)
Record Collectors := mkCollectors {
  cStart : Z;
  cValue : Z;
  cError : bool
}.

Definition NewCollectors (v : Z) : M Collectors :=
  start ← timeNow; ret {| cStart := start; cValue := v; cError := false |}.

Definition CollectorsError (c : Collectors) : Collectors :=
  {| cStart := cStart c; cValue := cValue c; cError := true |}.

Definition Collect (c : Collectors) : M unit :=
  t ← timeNow;
  CounterAdd metricProcessMillisCountKey ((t - cStart c) / Millisecond);;
  CounterAdd (if cError c then metricFailureCountKey else metricSuccessCountKey)
             (cValue c).

(** ** The worker: [loop] and its [flush] closure *)

(** The local variables of [loop].  [buffer] holds pointers to the queued
    payloads ([None] is the nil pointer of a slot never written); a flush
    resets [bufferSize] and leaves the slots as they are. *)
Record Locals := mkLocals {
  lastFlush : Z;
  bufferSize : Z;
  buffer : list (option bytes);
  buffer2 : list Message
}.

Definition set_lastFlush (t : Z) (l : Locals) : Locals :=
  {| lastFlush := t; bufferSize := bufferSize l; buffer := buffer l;
     buffer2 := buffer2 l |}.
Definition set_bufferSize (n : Z) (l : Locals) : Locals :=
  {| lastFlush := lastFlush l; bufferSize := n; buffer := buffer l;
     buffer2 := buffer2 l |}.
Definition set_buffer (b : list (option bytes)) (l : Locals) : Locals :=
  {| lastFlush := lastFlush l; bufferSize := bufferSize l; buffer := b;
     buffer2 := buffer2 l |}.
Definition set_buffer2 (b2 : list Message) (l : Locals) : Locals :=
  {| lastFlush := lastFlush l; bufferSize := bufferSize l; buffer := buffer l;
     buffer2 := b2 |}.

(** What the worker's [select] delivers: an item of the inbound channel,
    the closure of that channel ([ok] false), or a tick of the ticker. *)
Inductive Select :=
| RecvMsg (msg : bytes)
| RecvClosed
| TickerC.

(** How an iteration of the [for] loop ends. *)
Inductive Next :=
| Continue (l : Locals)
| Return (l : Locals).

Section Worker.
Context (env : Env).

(** The message built for a payload at lines 98-101. *)
Definition message_of (b : bytes) : Message :=
  {| Key := ComputeHash256 env b; Value := b |}.

(** [for bpos, b := range buffer[:bufferSize]], from position [bpos] on:
    the assignment of the zero message checks the index, then [*b]
    dereferences the pointer. *)
Fixpoint fill (bpos : nat) (bs : list (option bytes)) (b2 : list Message)
  : M (list Message) :=
  match bs with
  | [] => ret b2
  | b :: rest =>
      match slice_set b2 (Z.of_nat bpos) zeroMessage with
      | None => panic "index out of range"
      | Some b2' =>
          match b with
          | None => panic "nil pointer dereference"
          | Some v => fill (S bpos) rest (<[bpos := message_of v]> b2')
          end
      end
  end.

(** The closure [wm]: one call of the broker with [bufmsg[:bufmsgsz]]. *)
Definition wm (bufmsg : list Message) (bufmsgsz : Z) : M error :=
  fun w =>
    match slice_to bufmsg bufmsgsz with
    | None => Panic "slice bounds out of range" w
    | Some msgs =>
        let err := WriteMessages env (calls w) msgs in
        Ok err {| now := now w + WriteLatency env (calls w);
                  counters := counters w;
                  calls := S (calls w);
                  trace := trace w ++ [EvWriteMessages msgs err] |}
    end.

(** [for icnt := 0; icnt < defaultWriteRetry; icnt++], with [n] the
    number of iterations left and [err] the variable declared before the
    loop. *)
Fixpoint retry (n : nat) (bufmsg : list Message) (bufmsgsz : Z) (err : error)
  : M error :=
  match n with
  | O => ret err
  | S n' =>
      err' ← wm bufmsg bufmsgsz;
      match err' with
      | None => ret None
      | Some e =>
          tell (EvLogWarn e);;
          timeSleep defaultWriteRetrySleep;;
          retry n' bufmsg bufmsgsz (Some e)
      end
  end.

(** The closure [flush].  Its two deferred functions run in reverse
    order of their [defer]: first the collectors, then the update of
    [lastFlush]. *)
Definition flush (l : Locals) : M Locals :=
  if bufferSize l =? 0 then
    t ← timeNow; ret (set_lastFlush t l)
  else
    match slice_to (buffer l) (bufferSize l) with
    | None => panic "slice bounds out of range"
    | Some bs =>
        b2 ← fill 0 bs (buffer2 l);
        collectors ← NewCollectors (bufferSize l);
        err ← retry (Z.to_nat defaultWriteRetry) b2 (bufferSize l) None;
        collectors' ←
          match err with
          | None => ret collectors
          | Some e => tell (EvLogError e);; ret (CollectorsError collectors)
          end;
        Collect collectors';;
        t ← timeNow;
        ret (set_lastFlush t (set_bufferSize 0 (set_buffer2 b2 l)))
    end.

(** The variables declared at the head of [loop]. *)
Definition loop_init (size : Z) : M Locals :=
  t ← timeNow;
  b ← make (None : option bytes) size;
  b2 ← make zeroMessage size;
  ret {| lastFlush := t; bufferSize := 0; buffer := b; buffer2 := b2 |}.

(** One iteration of the [for] loop, for what [select] delivered. *)
Definition loop_body (size flushInterval : Z) (l : Locals) (s : Select)
  : M Next :=
  match s with
  | RecvClosed => ret (Return l)
  | RecvMsg msg =>
      l1 ← (if size <=? bufferSize l then flush l else ret l);
      match slice_set (buffer l1) (bufferSize l1) (Some msg) with
      | None => panic "index out of range"
      | Some b =>
          ret (Continue (set_bufferSize (wrap_int (bufferSize l1 + 1))
                                        (set_buffer b l1)))
      end
  | TickerC =>
      t ← timeNow;
      if lastFlush l + flushInterval <? t then
        l1 ← flush l; ret (Continue l1)
      else ret (Continue l)
  end.

(** The function deferred by [loop], run when the loop returns. *)
Definition loop_exit (l : Locals) : M Locals :=
  tell EvTickerStop;;
  l1 ← flush l;
  tell EvCloseDone;;
  ret l1.

End Worker.

(** ** Channels *)

(** The inbound channel [wb.buffer], a buffered [chan *[]byte].  [Write]
    sends the address of its own parameter, so an item is never nil and
    the queue holds the payloads. *)
Record Chan := mkChan {
  chQueue : list bytes;
  chClosed : bool;
  chCap : Z
}.

Inductive ChanResult (A : Type) :=
| ChOk (a : A)
| ChBlock
| ChPanic (msg : string).
Arguments ChOk {A} a.
Arguments ChBlock {A}.
Arguments ChPanic {A} msg.

(** [c <- x] *)
Definition chan_send (c : Chan) (x : bytes) : ChanResult Chan :=
  if chClosed c then ChPanic "send on closed channel"
  else if Z.of_nat (length (chQueue c)) <? chCap c then
    ChOk {| chQueue := chQueue c ++ [x]; chClosed := false; chCap := chCap c |}
  else ChBlock.

(** [x, ok := <-c]: the items queued before the closure are still
    delivered; [ok] is false once the channel is closed and drained. *)
Definition chan_recv (c : Chan) : ChanResult (Select * Chan) :=
  match chQueue c with
  | x :: q =>
      ChOk (RecvMsg x,
            {| chQueue := q; chClosed := chClosed c; chCap := chCap c |})
  | [] => if chClosed c then ChOk (RecvClosed, c) else ChBlock
  end.

(** [close(c)] *)
Definition chan_close (c : Chan) : ChanResult Chan :=
  if chClosed c then ChPanic "close of closed channel"
  else ChOk {| chQueue := chQueue c; chClosed := true; chCap := chCap c |}.

(** ** The writer, its worker goroutine and the callers *)

(** The goroutine started by [go wb.loop(size, flushInterval)]. *)
Inductive Worker :=
| WStarting
| WRunning (l : Locals)
| WExited (l : Locals).

(** Where a call of [close] stands: the statement it runs next. *)
Inductive ClosePC :=
| CloseIdle
| CloseAtTickerStop
| CloseAtRecvDone
| CloseAtWriterClose
| CloseReturned (err : error).

(** The [bufferedWriter] with its goroutine, the call of [close] and the
    world.  [sysDone] tells whether [doneCh], on which nothing is ever
    sent, is closed; the ticker's channel holds at most one tick. *)
Record System := mkSystem {
  sysSize : Z;
  sysFlushInterval : Z;
  sysBuffer : Chan;
  sysDone : bool;
  sysTickerStopped : bool;
  sysTickPending : bool;
  sysWorker : Worker;
  sysCloser : ClosePC;
  sysWorld : World
}.

Definition with_world (w : World) (s : System) : System :=
  {| sysSize := sysSize s; sysFlushInterval := sysFlushInterval s;
     sysBuffer := sysBuffer s; sysDone := sysDone s;
     sysTickerStopped := sysTickerStopped s;
     sysTickPending := sysTickPending s; sysWorker := sysWorker s;
     sysCloser := sysCloser s; sysWorld := w |}.
Definition with_buffer (c : Chan) (s : System) : System :=
  {| sysSize := sysSize s; sysFlushInterval := sysFlushInterval s;
     sysBuffer := c; sysDone := sysDone s;
     sysTickerStopped := sysTickerStopped s;
     sysTickPending := sysTickPending s; sysWorker := sysWorker s;
     sysCloser := sysCloser s; sysWorld := sysWorld s |}.
Definition with_done (b : bool) (s : System) : System :=
  {| sysSize := sysSize s; sysFlushInterval := sysFlushInterval s;
     sysBuffer := sysBuffer s; sysDone := b;
     sysTickerStopped := sysTickerStopped s;
     sysTickPending := sysTickPending s; sysWorker := sysWorker s;
     sysCloser := sysCloser s; sysWorld := sysWorld s |}.
Definition with_tickerStopped (b : bool) (s : System) : System :=
  {| sysSize := sysSize s; sysFlushInterval := sysFlushInterval s;
     sysBuffer := sysBuffer s; sysDone := sysDone s;
     sysTickerStopped := b;
     sysTickPending := sysTickPending s; sysWorker := sysWorker s;
     sysCloser := sysCloser s; sysWorld := sysWorld s |}.
Definition with_tickPending (b : bool) (s : System) : System :=
  {| sysSize := sysSize s; sysFlushInterval := sysFlushInterval s;
     sysBuffer := sysBuffer s; sysDone := sysDone s;
     sysTickerStopped := sysTickerStopped s;
     sysTickPending := b; sysWorker := sysWorker s;
     sysCloser := sysCloser s; sysWorld := sysWorld s |}.
Definition with_worker (k : Worker) (s : System) : System :=
  {| sysSize := sysSize s; sysFlushInterval := sysFlushInterval s;
     sysBuffer := sysBuffer s; sysDone := sysDone s;
     sysTickerStopped := sysTickerStopped s;
     sysTickPending := sysTickPending s; sysWorker := k;
     sysCloser := sysCloser s; sysWorld := sysWorld s |}.
Definition with_closer (pc : ClosePC) (s : System) : System :=
  {| sysSize := sysSize s; sysFlushInterval := sysFlushInterval s;
     sysBuffer := sysBuffer s; sysDone := sysDone s;
     sysTickerStopped := sysTickerStopped s;
     sysTickPending := sysTickPending s; sysWorker := sysWorker s;
     sysCloser := pc; sysWorld := sysWorld s |}.

(** Modelled from the spec: [metrics.Prometheus.CounterInit] of the absent
    package [services/metrics], "registered once at construction": the
    counter exists from then on, at zero if it is new. *)
Definition CounterInit (key : string) (w : World) : World :=
  {| now := now w;
     counters := <[key := counter key w]> (counters w);
     calls := calls w;
     trace := trace w |}.

(** [newBufferedWriter], with the three constants it reads as parameters:
    the batch size, the flush interval and the size of the inbound queue.
    The goroutine is started and has not run yet. *)
Definition newBufferedWriterWith (size flushInterval queueSize : Z)
  (w : World) : System :=
  {| sysSize := size;
     sysFlushInterval := flushInterval;
     sysBuffer := {| chQueue := []; chClosed := false; chCap := queueSize |};
     sysDone := false;
     sysTickerStopped := false;
     sysTickPending := false;
     sysWorker := WStarting;
     sysCloser := CloseIdle;
     sysWorld := CounterInit metricProcessMillisCountKey
                   (CounterInit metricFailureCountKey
                      (CounterInit metricSuccessCountKey w)) |}.

Definition newBufferedWriter (w : World) : System :=
  newBufferedWriterWith defaultBufferedWriterSize
    defaultBufferedWriterFlushInterval defaultBufferedWriterMsgQueueSize w.

(** What can happen next: a producer calls [Write], time passes, the
    ticker fires, the goroutine starts or runs one iteration of its loop on
    either case of the [select], the caller of [close] runs its next
    statement. *)
Inductive Action :=
| ActWrite (msg : bytes)
| ActElapse (d : Z)
| ActTick
| ActWorkerStart
| ActWorkerRecv
| ActWorkerTick
| ActClose.

(** An unrecovered panic of any goroutine ends the process. *)
Inductive Outcome :=
| Stepped (s : System)
| Blocked
| Crash (msg : string).

Section Step.
Context (env : Env).

(** [Write] *)
Definition Write (msg : bytes) (s : System) : Outcome :=
  match chan_send (sysBuffer s) msg with
  | ChOk c => Stepped (with_buffer c s)
  | ChBlock => Blocked
  | ChPanic m => Crash m
  end.

(** One iteration of the worker for what its [select] delivered; when
    the loop returns, the deferred function runs. *)
Definition worker_iter (l : Locals) (sel : Select) (s : System) : Outcome :=
  match loop_body env (sysSize s) (sysFlushInterval s) l sel (sysWorld s) with
  | Panic m _ => Crash m
  | Ok (Continue l') w' => Stepped (with_worker (WRunning l') (with_world w' s))
  | Ok (Return l') w' =>
      match loop_exit env l' w' with
      | Panic m _ => Crash m
      | Ok l'' w'' =>
          Stepped (with_worker (WExited l'')
                  (with_done true
                     (with_tickerStopped true (with_world w'' s))))
      end
  end.

(** The statements of [close], one at a time. *)
Definition close_step (s : System) : Outcome :=
  match sysCloser s with
  | CloseIdle | CloseReturned _ =>
      match chan_close (sysBuffer s) with
      | ChOk c =>
          Stepped (with_closer CloseAtTickerStop
                  (with_buffer c
                     (with_world (emit EvCloseBuffer (sysWorld s)) s)))
      | ChBlock => Blocked
      | ChPanic m => Crash m
      end
  | CloseAtTickerStop =>
      Stepped (with_closer CloseAtRecvDone
              (with_tickerStopped true
                 (with_world (emit EvTickerStop (sysWorld s)) s)))
  | CloseAtRecvDone =>
      if sysDone s then Stepped (with_closer CloseAtWriterClose s)
      else Blocked
  | CloseAtWriterClose =>
      Stepped (with_closer (CloseReturned (WriterClose env))
              (with_world (emit (EvWriterClose (WriterClose env))
                             (sysWorld s)) s))
  end.

Definition sys_step (s : System) (a : Action) : Outcome :=
  match a with
  | ActWrite msg => Write msg s
  | ActElapse d =>
      if 0 <=? d then Stepped (with_world (elapse d (sysWorld s)) s)
      else Blocked
  | ActTick =>
      if sysTickerStopped s then Blocked
      else Stepped (with_tickPending true s)
  | ActWorkerStart =>
      match sysWorker s with
      | WStarting =>
          match loop_init (sysSize s) (sysWorld s) with
          | Ok l w' => Stepped (with_worker (WRunning l) (with_world w' s))
          | Panic m _ => Crash m
          end
      | _ => Blocked
      end
  | ActWorkerRecv =>
      match sysWorker s with
      | WRunning l =>
          match chan_recv (sysBuffer s) with
          | ChOk (sel, c) => worker_iter l sel (with_buffer c s)
          | ChBlock => Blocked
          | ChPanic m => Crash m
          end
      | _ => Blocked
      end
  | ActWorkerTick =>
      match sysWorker s with
      | WRunning l =>
          if sysTickPending s then
            worker_iter l TickerC (with_tickPending false s)
          else Blocked
      | _ => Blocked
      end
  | ActClose => close_step s
  end.

(** A schedule: an action that blocks leaves the state as it is. *)
Fixpoint exec (acts : list Action) (s : System) : System + string :=
  match acts with
  | [] => inl s
  | a :: rest =>
      match sys_step s a with
      | Stepped s' => exec rest s'
      | Blocked => exec rest s
      | Crash m => inr m
      end
  end.

End Step.

(** ** Well-formed worker states and the accumulated batch *)

Definition non_nil (b : option bytes) : bool :=
  match b with Some _ => true | None => false end.

(** The payloads accumulated in [buffer[:bufferSize]]. *)
Definition batch (l : Locals) : list bytes :=
  omap id (take (Z.to_nat (bufferSize l)) (buffer l)).

(** The state of a worker started with [loop(size, _)]: both slices have
    [size] slots, [bufferSize] is within them and the slots below
    [bufferSize] hold payloads. *)
Definition wf_locals (size : Z) (l : Locals) : bool :=
  (0 <=? bufferSize l) && (bufferSize l <=? size)
  && (Z.of_nat (length (buffer l)) =? size)
  && (Z.of_nat (length (buffer2 l)) =? size)
  && forallb non_nil (take (Z.to_nat (bufferSize l)) (buffer l)).

(** The events of the attempts that failed with the errors [errs]: each
    one call with the whole batch, a warning and the sleep. *)
Fixpoint failed_attempts (msgs : list Message) (errs : list string)
  : list Event :=
  match errs with
  | [] => []
  | e :: es =>
      EvWriteMessages msgs (Some e) :: EvLogWarn e
        :: EvSleep defaultWriteRetrySleep :: failed_attempts msgs es
  end.

(** The calls of the broker found in a trace. *)
Definition published (tr : list Event) : list (list Message * error) :=
  omap (fun e => match e with
                 | EvWriteMessages msgs err => Some (msgs, err)
                 | _ => None
                 end) tr.


Section Attempts.
Context (env : Env).

(** The errors of the attempts that fail, among at most [n] attempts of
    which the first is the broker's call number [c]: the attempts stop at
    the first success. *)
Fixpoint attempt_errors (n c : nat) (msgs : list Message) : list string :=
  match n with
  | O => []
  | S n' =>
      match WriteMessages env c msgs with
      | None => []
      | Some e => e :: attempt_errors n' (S c) msgs
      end
  end.

Definition last_error (err0 : error) (errs : list string) : error :=
  match last errs with
  | Some e => Some e
  | None => err0
  end.

(** What follows the failed attempts: the successful call, or the error
    logged once the attempts are exhausted. *)
Definition outcome_events (msgs : list Message) (errs : list string)
  (ok : bool) : list Event :=
  if ok then [EvWriteMessages msgs None]
  else match last errs with
       | Some e => [EvLogError e]
       | None => []
       end.

End Attempts.

(** ** Shapes of traces *)

(** The events a flush of the batch [msgs] may produce: calls of the
    broker with the whole of [msgs], log entries, sleeps and counters. *)
Definition flush_event (msgs : list Message) (e : Event) : Prop :=
  match e with
  | EvWriteMessages m _ => m = msgs
  | EvLogWarn _ | EvLogError _ | EvSleep _ | EvCounterAdd _ _ => True
  | EvTickerStop | EvCloseBuffer | EvCloseDone | EvWriterClose _ => False
  end.

(** The events that are not a step of the shutdown. *)
Definition no_shutdown (e : Event) : Prop :=
  match e with
  | EvCloseBuffer | EvCloseDone | EvWriterClose _ => False
  | _ => True
  end.

(** A message carries the digest of its value as its key. *)
Definition keyed (env : Env) (m : Message) : Prop :=
  Key m = ComputeHash256 env (Value m).

(** Two payloads collide when they differ and have the same digest. *)
Definition collision (env : Env) (a b : bytes) : Prop :=
  a <> b /\ ComputeHash256 env a = ComputeHash256 env b.

(** A call of the broker in a trace of a writer of capacity [size]: one
    non-empty batch of at most [size] keyed messages. *)
Definition event_ok (env : Env) (size : Z) (e : Event) : Prop :=
  match e with
  | EvWriteMessages msgs _ =>
      msgs <> [] /\ Z.of_nat (length msgs) <= size /\ Forall (keyed env) msgs
  | _ => True
  end.

(** The trace [pre] of a shutdown up to the closure of [doneCh]: the
    inbound channel is closed, later the worker stops the ticker and runs
    its last flush, from the state [l] to the state [l'], then closes
    [doneCh]; after that only the caller's [flushTicker.Stop] may follow. *)
Definition drained (env : Env) (size : Z) (l' : Locals) (pre : list Event)
  : Prop :=
  exists t1 t2 fl t3 l w w',
    pre = t1 ++ EvCloseBuffer :: t2 ++ EvTickerStop :: fl ++ EvCloseDone :: t3
    /\ Forall no_shutdown t1 /\ Forall no_shutdown t2
    /\ Forall (flush_event (message_of env <$> batch l)) fl
    /\ Forall (eq EvTickerStop) t3
    /\ wf_locals size l = true
    /\ flush env l w = Ok l' w'
    /\ trace w = t1 ++ EvCloseBuffer :: t2 ++ [EvTickerStop]
    /\ trace w' = trace w ++ fl
    /\ (bufferSize l <> 0 -> published fl <> []).

(** The payloads accumulated by the worker. *)
Definition worker_batch (s : System) : list bytes :=
  match sysWorker s with
  | WStarting => []
  | WRunning l | WExited l => batch l
  end.

(** A schedule that shuts the writer down when the inbound channel holds
    [n] items: the goroutine starts if it has not yet, [close] closes the
    channel and stops the ticker, the worker takes the [n] items and sees
    the closure, [close] receives from [doneCh] and closes the broker's
    connection. *)
Definition close_schedule (n : nat) : list Action :=
  [ActWorkerStart; ActClose; ActClose]
    ++ replicate (S n) ActWorkerRecv ++ [ActClose; ActClose].

(** The payloads handed to [Write] by a schedule. *)
Definition written (acts : list Action) : list bytes :=
  omap (fun a => match a with ActWrite msg => Some msg | _ => None end) acts.

(** A call of the broker that carries only payloads among [W]. *)
Definition values_in (W : list bytes) (e : Event) : Prop :=
  match e with
  | EvWriteMessages msgs _ => forall m, m ∈ msgs -> Value m ∈ W
  | _ => True
  end.

(** Whatever is queued, accumulated or published was written: it is
    among the payloads [W]. *)
Definition provenance (W : list bytes) (s : System) : Prop :=
  (forall x, x ∈ chQueue (sysBuffer s) -> x ∈ W)
  /\ (forall x, x ∈ worker_batch s -> x ∈ W)
  /\ Forall (values_in W) (trace (sysWorld s)).

(** The worker's state is well formed. *)
Definition worker_wf (s : System) : Prop :=
  match sysWorker s with
  | WStarting => True
  | WRunning l | WExited l => wf_locals (sysSize s) l = true
  end.

(** How far the shutdown is, by the states of the worker and of the call
    of [close]. *)
Definition proto_inv (env : Env) (s : System) : Prop :=
  let tr := trace (sysWorld s) in
  match sysWorker s, sysCloser s with
  | (WStarting | WRunning _), CloseIdle =>
      chClosed (sysBuffer s) = false /\ sysDone s = false
      /\ Forall no_shutdown tr
  | (WStarting | WRunning _), (CloseAtTickerStop | CloseAtRecvDone) =>
      chClosed (sysBuffer s) = true /\ sysDone s = false
      /\ exists t1 t2, tr = t1 ++ EvCloseBuffer :: t2
                        /\ Forall no_shutdown t1 /\ Forall no_shutdown t2
  | WExited l', (CloseAtTickerStop | CloseAtRecvDone | CloseAtWriterClose) =>
      chClosed (sysBuffer s) = true /\ sysDone s = true
      /\ chQueue (sysBuffer s) = []
      /\ drained env (sysSize s) l' tr
  | WExited l', CloseReturned e =>
      chClosed (sysBuffer s) = true /\ sysDone s = true
      /\ chQueue (sysBuffer s) = []
      /\ e = WriterClose env
      /\ exists pre, tr = pre ++ [EvWriterClose e]
                      /\ drained env (sysSize s) l' pre
  | _, _ => False
  end.

Definition sys_inv (env : Env) (s : System) : Prop :=
  worker_wf s
  /\ Forall (event_ok env (sysSize s)) (trace (sysWorld s))
  /\ proto_inv env s.

(** The world at the start of the process. *)
Definition boot (t : Z) : World :=
  {| now := t; counters := ∅; calls := 0; trace := [] |}.

(** ** Brokers and states used as examples *)

(** A broker that accepts every batch, and one that refuses every batch;
    the digest is left open. *)
Definition broker_up (H : bytes -> bytes) : Env :=
  {| ComputeHash256 := H;
     WriteMessages := fun _ _ => None;
     WriteLatency := fun _ => 0;
     WriterClose := None |}.

Definition broker_down (H : bytes -> bytes) : Env :=
  {| ComputeHash256 := H;
     WriteMessages := fun _ _ => Some "broker unavailable";
     WriteLatency := fun _ => 0;
     WriterClose := Some "close failed" |}.

(** The payloads "a", "b" and "c". *)
Definition payload_a : bytes := [Byte.x61].
Definition payload_b : bytes := [Byte.x62].
Definition payload_c : bytes := [Byte.x63].

(** A worker of capacity 2 whose buffer is empty, and one whose buffer
    holds "a" and "b". *)
Definition locals_empty : Locals :=
  {| lastFlush := 0; bufferSize := 0; buffer := [None; None];
     buffer2 := [zeroMessage; zeroMessage] |}.

Definition locals_ab : Locals :=
  {| lastFlush := 0; bufferSize := 2;
     buffer := [Some payload_a; Some payload_b];
     buffer2 := [zeroMessage; zeroMessage] |}.

(** ** Accounting of the payloads *)

(** The payloads of the calls that the broker accepted, in the order of
    the trace. *)
Definition delivered (tr : list Event) : list bytes :=
  concat (omap (fun e => match e with
                         | EvWriteMessages msgs None => Some (Value <$> msgs)
                         | _ => None
                         end) tr).

(** The payloads whose [Write] returned along a schedule: a [Write] that
    blocks has not handed its payload over. *)
Fixpoint accepted (env : Env) (acts : list Action) (s : System) : list bytes :=
  match acts with
  | [] => []
  | a :: rest =>
      match sys_step env s a with
      | Stepped s' =>
          match a with
          | ActWrite msg => msg :: accepted env rest s'
          | _ => accepted env rest s'
          end
      | Blocked => accepted env rest s
      | Crash _ => []
      end
  end.




(** The inbound channel holds no more than its capacity, which never
    changes. *)
Definition queue_bounded (queueSize : Z) (s : System) : Prop :=
  chCap (sysBuffer s) = queueSize
  /\ Z.of_nat (length (chQueue (sysBuffer s))) <= Z.max 0 queueSize.

(** The shutdown is over: the worker has exited and [close] has
    returned. *)
Definition shut_down (s : System) : Prop :=
  (exists l, sysWorker s = WExited l)
  /\ (exists e, sysCloser s = CloseReturned e).

(** ** Runs and a broker used as examples *)

(** A run in which three payloads are written and taken by the worker,
    and the same run followed by a shutdown. *)
Definition run_abc : list Action :=
  [ActWorkerStart; ActWrite payload_a; ActWrite payload_b; ActWrite payload_c;
   ActWorkerRecv; ActWorkerRecv; ActWorkerRecv].

Definition run_abc_close : list Action := run_abc ++ close_schedule 0.


(** * Properties *)

Arguments Collect : simpl never.
Arguments CounterAdd : simpl never.
Arguments flush : simpl never.
Arguments loop_body : simpl never.
Arguments loop_exit : simpl never.
Arguments loop_init : simpl never.

Ltac unfold_monad :=
  unfold mbind, M_bind, bind, mret, M_ret, ret, panic, tell, timeNow,
    timeSleep in *.

Lemma omap_id_length_le (bs : list (option bytes)) :
  (length (omap id bs) <= length bs)%nat.
Proof.
  induction bs as [|[b|] bs IH]; cbn [omap list_omap length id] in *; lia.
Qed.

Lemma forallb_non_nil (bs : list (option bytes)) :
  forallb non_nil bs = true <-> bs = Some <$> omap id bs.
Proof.
  induction bs as [|[b|] bs IH]; cbn [forallb non_nil andb omap list_omap id].
  - split; reflexivity.
  - rewrite fmap_cons, IH.
    split; [intros <-; reflexivity | intros [= E]; exact E].
  - split; [discriminate|]. intros E.
    apply (f_equal length) in E. rewrite length_fmap in E. cbn [length] in E.
    pose proof (omap_id_length_le bs). lia.
Qed.

Section WorkerFacts.
Context (env : Env).

Lemma wf_locals_spec size l :
  wf_locals size l = true <->
  0 <= bufferSize l <= size
  /\ Z.of_nat (length (buffer l)) = size
  /\ Z.of_nat (length (buffer2 l)) = size
  /\ take (Z.to_nat (bufferSize l)) (buffer l) = Some <$> batch l.
Proof.
  unfold wf_locals, batch.
  rewrite !andb_true_iff, !Z.leb_le, !Z.eqb_eq.
  rewrite forallb_non_nil. tauto.
Qed.

Lemma batch_length size l :
  wf_locals size l = true -> Z.of_nat (length (batch l)) = bufferSize l.
Proof.
  intros Hwf. apply wf_locals_spec in Hwf as ([H0 H1] & Hb & _ & Ht).
  apply (f_equal length) in Ht.
  rewrite length_take, length_fmap in Ht. lia.
Qed.

(** [fill] overwrites the slots from [bpos] on with the messages of the
    payloads. *)
Lemma fill_ok (ps : list bytes) : forall bpos b2 w,
  (bpos + length ps <= length b2)%nat ->
  fill env bpos (Some <$> ps) b2 w
  = Ok (take bpos b2 ++ (message_of env <$> ps)
          ++ drop (bpos + length ps) b2) w.
Proof.
  induction ps as [|p ps IH]; intros bpos b2 w Hlen; simpl.
  - unfold_monad. rewrite Nat.add_0_r, take_drop. reflexivity.
  - simpl in Hlen. unfold slice_set.
    replace (0 <=? Z.of_nat bpos) with true by (symmetry; apply Z.leb_le; lia).
    replace (Z.of_nat bpos <? Z.of_nat (length (A:=Message) b2)) with true
      by (symmetry; apply Z.ltb_lt; lia).
    simpl. rewrite Nat2Z.id, list_insert_insert_eq.
    rewrite IH by (rewrite length_insert; lia).
    f_equal.
    rewrite (take_S_r _ _ (message_of env p))
      by (apply list_lookup_insert_eq; lia).
    rewrite take_insert_ge by lia.
    rewrite drop_insert_lt by lia.
    rewrite <- app_assoc. simpl.
    replace (bpos + S (length ps))%nat with (S (bpos + length ps)) by lia.
    reflexivity.
Qed.

Lemma attempt_errors_length n c msgs :
  (length (attempt_errors env n c msgs) <= n)%nat.
Proof.
  revert c. induction n as [|n IH]; intros c; simpl; [lia|].
  destruct (WriteMessages env c msgs); simpl; [specialize (IH (S c))|]; lia.
Qed.

Lemma last_error_cons err0 e errs :
  last_error err0 (e :: errs) = last_error (Some e) errs.
Proof.
  unfold last_error. destruct errs as [|e' errs]; [reflexivity|].
  change (last (e :: e' :: errs)) with (last (e' :: errs)).
  destruct (last (e' :: errs)) eqn:E; [reflexivity|].
  apply last_None in E. discriminate.
Qed.

(** The retry loop: it calls the broker until a call succeeds or [n]
    calls have failed, with a warning and a sleep after every failure. *)
Lemma retry_spec n : forall bufmsg sz msgs err0 w,
  slice_to bufmsg sz = Some msgs ->
  let errs := attempt_errors env n (calls w) msgs in
  let ok := (length errs <? n)%nat in
  exists w',
    retry env n bufmsg sz err0 w
    = Ok (if ok then None else last_error err0 errs) w'
    /\ trace w' = trace w ++ failed_attempts msgs errs
                    ++ (if ok then [EvWriteMessages msgs None] else [])
    /\ counters w' = counters w
    /\ calls w' = (calls w + length errs + (if ok then 1 else 0))%nat.
Proof.
  induction n as [|n IH]; intros bufmsg sz msgs err0 w Hs; simpl.
  - exists w. unfold_monad. rewrite app_nil_r. repeat split; lia.
  - unfold_monad. unfold wm. rewrite Hs.
    destruct (WriteMessages env (calls w) msgs) as [e|] eqn:He; simpl.
    + match goal with
      | |- context [retry env n bufmsg sz (Some e) ?w1] =>
          destruct (IH bufmsg sz msgs (Some e) w1 Hs)
            as (w' & Hr & Ht & Hc & Hn)
      end.
      simpl in Hr, Ht, Hc, Hn. exists w'.
      rewrite Hr. change (S (length ?x) <? S n)%nat with (length x <? n)%nat.
      rewrite last_error_cons.
      split; [reflexivity|]. split; [|split; [exact Hc|lia]].
      rewrite Ht, <- !app_assoc. reflexivity.
    + eexists. split; [reflexivity|]. simpl. repeat split; lia.
Qed.

Lemma counter_CounterAdd key key' v w :
  forall w', CounterAdd key v w = Ok () w' ->
  counter key' w' = if decide (key = key') then counter key' w + v
                    else counter key' w.
Proof.
  intros w' [= <-]. unfold counter at 1. simpl.
  rewrite lookup_insert. destruct (decide (key = key')) as [->|]; reflexivity.
Qed.

Lemma Collect_spec c w :
  exists w',
    Collect c w = Ok () w'
    /\ trace w' = trace w
         ++ [EvCounterAdd metricProcessMillisCountKey
               ((now w - cStart c) / Millisecond);
             EvCounterAdd (if cError c then metricFailureCountKey
                           else metricSuccessCountKey) (cValue c)]
    /\ now w' = now w
    /\ calls w' = calls w
    /\ counter metricSuccessCountKey w'
       = counter metricSuccessCountKey w + (if cError c then 0 else cValue c)
    /\ counter metricFailureCountKey w'
       = counter metricFailureCountKey w + (if cError c then cValue c else 0).
Proof.
  unfold Collect. unfold_monad.
  destruct (CounterAdd metricProcessMillisCountKey
              ((now w - cStart c) / Millisecond) w) as [[] w1|] eqn:E1;
    [|discriminate].
  destruct (CounterAdd (if cError c then metricFailureCountKey
                        else metricSuccessCountKey) (cValue c) w1)
    as [[] w2|] eqn:E2; [|discriminate].
  exists w2. split; [reflexivity|].
  rewrite (counter_CounterAdd _ metricSuccessCountKey _ _ _ E2).
  rewrite (counter_CounterAdd _ metricFailureCountKey _ _ _ E2).
  rewrite (counter_CounterAdd _ metricSuccessCountKey _ _ _ E1).
  rewrite (counter_CounterAdd _ metricFailureCountKey _ _ _ E1).
  injection E2 as <-. injection E1 as <-. simpl.
  rewrite <- app_assoc.
  destruct (cError c); repeat split; repeat case_decide;
    try discriminate; try congruence; lia.
Qed.

Lemma slice_to_batch size l :
  wf_locals size l = true ->
  slice_to (buffer l) (bufferSize l) = Some (Some <$> batch l).
Proof.
  intros Hwf. apply wf_locals_spec in Hwf as ([H0 H1] & Hb & _ & Ht).
  unfold slice_to.
  replace (0 <=? bufferSize l) with true by (symmetry; apply Z.leb_le; lia).
  replace (bufferSize l <=? Z.of_nat (length (buffer l))) with true
    by (symmetry; apply Z.leb_le; lia).
  simpl. rewrite Ht. reflexivity.
Qed.

(** A flush of a non-empty buffer, whatever the broker answers. *)
Lemma flush_nonempty size l w :
  wf_locals size l = true ->
  bufferSize l <> 0 ->
  let msgs := message_of env <$> batch l in
  let errs := attempt_errors env (Z.to_nat defaultWriteRetry) (calls w) msgs in
  let ok := (length errs <? Z.to_nat defaultWriteRetry)%nat in
  exists l' w' ms,
    flush env l w = Ok l' w'
    /\ trace w' = trace w ++ failed_attempts msgs errs
                    ++ outcome_events msgs errs ok
                    ++ [EvCounterAdd metricProcessMillisCountKey ms;
                        EvCounterAdd (if ok then metricSuccessCountKey
                                      else metricFailureCountKey)
                                     (bufferSize l)]
    /\ counter metricSuccessCountKey w'
       = counter metricSuccessCountKey w + (if ok then bufferSize l else 0)
    /\ counter metricFailureCountKey w'
       = counter metricFailureCountKey w + (if ok then 0 else bufferSize l)
    /\ calls w' = (calls w + length errs + (if ok then 1 else 0))%nat
    /\ bufferSize l' = 0
    /\ lastFlush l' = now w'
    /\ buffer l' = buffer l
    /\ length (buffer2 l') = length (buffer2 l).
Proof.
  intros Hwf Hne msgs errs ok.
  pose proof (slice_to_batch _ _ Hwf) as Hs.
  pose proof (batch_length _ _ Hwf) as Hbl.
  apply wf_locals_spec in Hwf as ([H0 H1] & Hb & Hb2 & Ht).
  unfold flush. destruct (bufferSize l =? 0) eqn:E; [apply Z.eqb_eq in E; lia|].
  rewrite Hs. unfold mbind at 1, M_bind at 1, bind at 1.
  rewrite fill_ok by (simpl; lia). rewrite take_0. simpl app.
  set (b2 := _ ++ drop _ _).
  assert (Hb2len : length b2 = length (buffer2 l)).
  { subst b2. rewrite length_app, length_fmap, length_drop. lia. }
  assert (Hs2 : slice_to b2 (bufferSize l) = Some msgs).
  { unfold slice_to.
    replace (0 <=? bufferSize l) with true by (symmetry; apply Z.leb_le; lia).
    replace (bufferSize l <=? Z.of_nat (length b2)) with true
      by (symmetry; apply Z.leb_le; lia).
    simpl. f_equal. subst b2. apply take_app_length'.
    subst msgs. rewrite length_fmap. lia. }
  unfold NewCollectors. unfold_monad.
  destruct (retry_spec (Z.to_nat defaultWriteRetry) b2 (bufferSize l) msgs
              None w Hs2) as (w1 & Hr & Htr & Hc & Hn).
  fold errs in Hr, Htr, Hn. fold ok in Hr, Htr, Hn.
  rewrite Hr.
  destruct ok eqn:Hok.
  - cbn beta iota.
    match goal with
    | |- context [Collect ?c w1] =>
        destruct (Collect_spec c w1) as (w2 & HC & HCt & HCn & HCc & HCs & HCf)
    end.
    rewrite HC. cbn [cError cValue cStart] in *.
    do 3 eexists. split; [reflexivity|]. simpl.
    rewrite HCs, HCf, HCt, HCc, Htr. unfold counter. rewrite Hc.
    repeat split; try lia.
    rewrite <- !app_assoc. reflexivity.
  - assert (Hlen : length errs = Z.to_nat defaultWriteRetry).
    { apply Nat.ltb_ge in Hok.
      pose proof (attempt_errors_length (Z.to_nat defaultWriteRetry)
                    (calls w) msgs) as Hle. fold errs in Hle. lia. }
    unfold last_error, outcome_events.
    destruct (last errs) as [e|] eqn:El.
    2:{ apply last_None in El. rewrite El in Hlen. discriminate. }
    cbn beta iota delta [emit].
    match goal with
    | |- context [Collect ?c ?w1'] =>
        destruct (Collect_spec c w1') as (w2 & HC & HCt & HCn & HCc & HCs & HCf)
    end.
    rewrite HC. cbn [cError cValue cStart CollectorsError] in *.
    do 3 eexists. split; [reflexivity|]. simpl.
    rewrite HCs, HCf, HCt, HCc. simpl. rewrite Htr.
    unfold counter. simpl. rewrite Hc.
    repeat split; try lia.
    rewrite <- !app_assoc. reflexivity.
Qed.

End WorkerFacts.

(** ** Facts about traces *)

Lemma published_app tr1 tr2 :
  published (tr1 ++ tr2) = published tr1 ++ published tr2.
Proof. unfold published. apply omap_app. Qed.


Lemma published_failed_attempts msgs errs :
  published (failed_attempts msgs errs) = (fun e => (msgs, Some e)) <$> errs.
Proof.
  induction errs as [|e errs IH]; [reflexivity|].
  cbn [failed_attempts fmap list_fmap]. rewrite <- IH. reflexivity.
Qed.


Section FlushFacts.
Context (env : Env).

(** A flush of the empty buffer only reads the clock. *)
Lemma flush_empty l w :
  bufferSize l = 0 -> flush env l w = Ok (set_lastFlush (now w) l) w.
Proof. intros E. unfold flush. rewrite E. reflexivity. Qed.

Lemma wf_locals_flushed size l t b2 :
  wf_locals size l = true ->
  length b2 = length (buffer2 l) ->
  wf_locals size (set_lastFlush t (set_bufferSize 0 (set_buffer2 b2 l))) = true.
Proof.
  intros Hwf Hlen. apply wf_locals_spec in Hwf as ([H0 H1] & Hb & Hb2 & Ht).
  apply wf_locals_spec. simpl. repeat split; try lia.
Qed.

(** Every flush of a well-formed state returns, with the buffer empty
    and the time of its end in [lastFlush]. *)
Lemma flush_ok size l w :
  wf_locals size l = true ->
  exists l' w' evs,
    flush env l w = Ok l' w'
    /\ trace w' = trace w ++ evs
    /\ wf_locals size l' = true
    /\ bufferSize l' = 0
    /\ lastFlush l' = now w'
    /\ buffer l' = buffer l
    /\ (forall p, p ∈ published evs ->
          bufferSize l <> 0 /\ p.1 = message_of env <$> batch l).
Proof.
  intros Hwf. destruct (decide (bufferSize l = 0)) as [E|E].
  - exists (set_lastFlush (now w) l), w, []. rewrite flush_empty by exact E.
    rewrite app_nil_r. repeat split; try reflexivity; try exact E.
    + apply wf_locals_spec in Hwf as ([H0 H1] & Hb & Hb2 & Ht).
      apply wf_locals_spec. simpl. repeat split; try lia. exact Ht.
    + inversion H.
    + inversion H.
  - destruct (flush_nonempty env size l w Hwf E)
      as (l' & w' & ms & Hf & Ht & _ & _ & _ & Hbs & Hlf & Hb & Hb2).
    eexists l', w', _. split; [exact Hf|]. split; [exact Ht|].
    assert (Hwf' : wf_locals size l' = true).
    { apply wf_locals_spec in Hwf as ([H0 H1] & Hlb & Hlb2 & Htk).
      unfold wf_locals. rewrite Hbs, Hb, Hb2. simpl.
      rewrite !andb_true_iff, !Z.leb_le, !Z.eqb_eq. repeat split; lia. }
    repeat split; try assumption.
    + rewrite !published_app, published_failed_attempts in H.
      apply elem_of_app in H as [H|H].
      * apply list_elem_of_fmap in H as (e & -> & _). reflexivity.
      * revert H. unfold outcome_events.
        destruct (_ <? _)%nat; [|destruct (last _)]; simpl;
          intros H; repeat (apply elem_of_cons in H as [->|H]);
          try reflexivity; inversion H.
Qed.

End FlushFacts.

(** ** The iterations of the loop *)

Lemma wrap_int_id x : is_int x -> wrap_int x = x.
Proof.
  unfold is_int, int_min, int_max, wrap_int. intros H.
  rewrite Z.mod_small; lia.
Qed.

Section LoopFacts.
Context (env : Env).

(** Appending below the capacity: line 160 and 161. *)
Lemma append_ok size l msg :
  wf_locals size l = true ->
  is_int size ->
  bufferSize l < size ->
  exists b,
    slice_set (buffer l) (bufferSize l) (Some msg) = Some b
    /\ let l' := set_bufferSize (wrap_int (bufferSize l + 1)) (set_buffer b l) in
       wf_locals size l' = true
       /\ bufferSize l' = bufferSize l + 1
       /\ batch l' = batch l ++ [msg].
Proof.
  intros Hwf Hint Hlt.
  apply wf_locals_spec in Hwf as ([H0 H1] & Hb & Hb2 & Ht).
  unfold slice_set.
  replace (0 <=? bufferSize l) with true by (symmetry; apply Z.leb_le; lia).
  replace (bufferSize l <? Z.of_nat (length (buffer l))) with true
    by (symmetry; apply Z.ltb_lt; lia).
  eexists. split; [reflexivity|]. cbn zeta.
  assert (Hw : wrap_int (bufferSize l + 1) = bufferSize l + 1).
  { apply wrap_int_id. unfold is_int, int_min, int_max in *. lia. }
  assert (Htake : take (Z.to_nat (bufferSize l + 1))
                    (<[Z.to_nat (bufferSize l) := Some msg]> (buffer l))
                  = (Some <$> batch l) ++ [Some msg]).
  { replace (Z.to_nat (bufferSize l + 1)) with (S (Z.to_nat (bufferSize l)))
      by lia.
    rewrite (take_S_r _ _ (Some msg))
      by (apply list_lookup_insert_eq; lia).
    rewrite take_insert_ge by lia. rewrite Ht. reflexivity. }
  assert (Hbatch : batch (set_bufferSize (wrap_int (bufferSize l + 1))
                            (set_buffer (<[Z.to_nat (bufferSize l) := Some msg]>
                                           (buffer l)) l))
                   = batch l ++ [msg]).
  { unfold batch at 1. simpl. rewrite Hw, Htake, omap_app. simpl.
    f_equal. clear. induction (batch l) as [|x xs IH]; [reflexivity|].
    simpl. f_equal. exact IH. }
  split; [|split; [simpl; exact Hw | exact Hbatch]].
  apply wf_locals_spec. rewrite Hbatch. simpl. rewrite Hw, length_insert.
  repeat split; try lia.
  rewrite Htake, fmap_app. reflexivity.
Qed.

(** The channel case of the [select] on a well-formed state with a
    positive capacity: a flush first if the buffer is full, then the
    item is appended. *)
Lemma loop_body_recv size flushInterval l msg w :
  wf_locals size l = true ->
  is_int size ->
  0 < size ->
  exists l1 w1 l',
    (if size <=? bufferSize l then flush env l w else Ok l w) = Ok l1 w1
    /\ loop_body env size flushInterval l (RecvMsg msg) w = Ok (Continue l') w1
    /\ wf_locals size l' = true
    /\ bufferSize l1 < size
    /\ bufferSize l' = bufferSize l1 + 1
    /\ batch l' = batch l1 ++ [msg]
    /\ lastFlush l' = lastFlush l1.
Proof.
  intros Hwf Hint Hpos.
  assert (H1 : exists l1 w1,
             (if size <=? bufferSize l then flush env l w else Ok l w)
             = Ok l1 w1
             /\ wf_locals size l1 = true /\ bufferSize l1 < size).
  { destruct (size <=? bufferSize l) eqn:E.
    - destruct (flush_ok env size l w Hwf)
        as (l1 & w1 & evs & Hf & _ & Hwf1 & Hbs & _).
      exists l1, w1. repeat split; [exact Hf | exact Hwf1 | lia].
    - apply Z.leb_gt in E. exists l, w. repeat split; assumption. }
  destruct H1 as (l1 & w1 & Hpre & Hwf1 & Hlt).
  destruct (append_ok size l1 msg Hwf1 Hint Hlt) as (b & Hset & Hwf' & Hbs' & Hb').
  exists l1, w1. eexists. split; [exact Hpre|].
  split; [|split; [exact Hwf'|]; split; [exact Hlt|]; split; [exact Hbs'|];
             split; [exact Hb' | reflexivity]].
  unfold loop_body. unfold_monad.
  destruct (size <=? bufferSize l); [rewrite Hpre | injection Hpre as <- <-];
    rewrite Hset; reflexivity.
Qed.

(** The ticker case of the [select]. *)
Lemma loop_body_tick size flushInterval l w :
  loop_body env size flushInterval l TickerC w
  = if lastFlush l + flushInterval <? now w then
      match flush env l w with
      | Ok l1 w1 => Ok (Continue l1) w1
      | Panic m w1 => Panic m w1
      end
    else Ok (Continue l) w.
Proof.
  unfold loop_body. unfold_monad.
  destruct (lastFlush l + flushInterval <? now w); reflexivity.
Qed.

Lemma loop_init_ok size w :
  0 <= size ->
  exists l,
    loop_init size w = Ok l w
    /\ wf_locals size l = true /\ bufferSize l = 0 /\ lastFlush l = now w.
Proof.
  intros H. unfold loop_init, make. unfold_monad.
  replace (size <? 0) with false by (symmetry; apply Z.ltb_ge; lia).
  eexists. split; [reflexivity|]. split; [|split; reflexivity].
  unfold wf_locals. simpl. rewrite !length_replicate, Z2Nat.id by lia.
  rewrite Z.eqb_refl. replace (0 <=? size) with true
    by (symmetry; apply Z.leb_le; lia). reflexivity.
Qed.

Lemma loop_init_neg size w :
  size < 0 -> exists m, loop_init size w = Panic m w.
Proof.
  intros H. unfold loop_init, make. unfold_monad.
  replace (size <? 0) with true by (symmetry; apply Z.ltb_lt; lia).
  eexists. reflexivity.
Qed.

End LoopFacts.

(** ** The events of a flush *)

Lemma flush_event_no_shutdown msgs e : flush_event msgs e -> no_shutdown e.
Proof. destruct e; simpl; tauto. Qed.

Lemma Forall_flush_event_no_shutdown msgs evs :
  Forall (flush_event msgs) evs -> Forall no_shutdown evs.
Proof.
  intros H. eapply Forall_impl; [exact H|]. apply flush_event_no_shutdown.
Qed.

Lemma failed_attempts_flush_event msgs errs :
  Forall (flush_event msgs) (failed_attempts msgs errs).
Proof.
  induction errs as [|e errs IH]; simpl; [constructor|].
  repeat constructor. exact IH.
Qed.

Section FlushTrace.
Context (env : Env).

Lemma message_of_keyed (ps : list bytes) :
  Forall (keyed env) (message_of env <$> ps).
Proof.
  induction ps as [|p ps IH]; [constructor|].
  rewrite fmap_cons. constructor; [reflexivity | exact IH].
Qed.

(** What a flush adds to the trace. *)
Lemma flush_trace size l w l' w' :
  wf_locals size l = true ->
  flush env l w = Ok l' w' ->
  exists evs,
    trace w' = trace w ++ evs
    /\ Forall (flush_event (message_of env <$> batch l)) evs
    /\ Forall (event_ok env size) evs
    /\ (bufferSize l = 0 -> evs = [])
    /\ (bufferSize l <> 0 -> published evs <> []).
Proof.
  intros Hwf Hf. destruct (decide (bufferSize l = 0)) as [E|E].
  - rewrite flush_empty in Hf by exact E. injection Hf as <- <-.
    exists []. rewrite app_nil_r.
    repeat split; try constructor. intros; contradiction.
  - destruct (flush_nonempty env size l w Hwf E)
      as (l1 & w1 & ms & Hf1 & Ht & _). rewrite Hf in Hf1.
    injection Hf1 as <- <-.
    eexists. split; [exact Ht|].
    set (msgs := message_of env <$> batch l) in *.
    set (errs := attempt_errors env _ _ _) in *.
    assert (Hfe : Forall (flush_event msgs)
                    (failed_attempts msgs errs
                     ++ outcome_events msgs errs
                          (length errs <? Z.to_nat defaultWriteRetry)%nat
                     ++ [EvCounterAdd metricProcessMillisCountKey ms;
                         EvCounterAdd
                           (if (length errs <? Z.to_nat defaultWriteRetry)%nat
                            then metricSuccessCountKey
                            else metricFailureCountKey) (bufferSize l)])).
    { apply Forall_app. split; [apply failed_attempts_flush_event|].
      apply Forall_app. split; [|repeat constructor].
      unfold outcome_events.
      destruct (_ <? _)%nat; [|destruct (last errs)]; repeat constructor. }
    split; [exact Hfe|].
    assert (Hlen : Z.of_nat (length msgs) = bufferSize l).
    { subst msgs. rewrite length_fmap. apply (batch_length size). exact Hwf. }
    apply wf_locals_spec in Hwf as ([H0 H1] & _).
    split; [|split; [intros; contradiction|]].
    + eapply Forall_impl; [exact Hfe|].
      intros [m ?| | | | | | | |]; simpl; try tauto.
      intros ->. split; [|split; [lia | apply message_of_keyed]].
      intros Hnil. rewrite Hnil in Hlen. simpl in Hlen. lia.
    + intros _. rewrite !published_app, published_failed_attempts.
      unfold outcome_events.
      destruct (length errs <? Z.to_nat defaultWriteRetry)%nat eqn:Hok.
      * simpl. intros Hnil. apply app_eq_nil in Hnil as [_ Hnil].
        discriminate.
      * apply Nat.ltb_ge in Hok.
        destruct errs as [|e errs']; [simpl in Hok; vm_compute in Hok; lia|].
        simpl. discriminate.
Qed.

(** The channel case of the [select], when the iteration returns. *)
Lemma loop_body_recv_inv size flushInterval l msg w n w' :
  wf_locals size l = true ->
  is_int size ->
  loop_body env size flushInterval l (RecvMsg msg) w = Ok n w' ->
  exists l1 l',
    n = Continue l'
    /\ (if size <=? bufferSize l then flush env l w else Ok l w) = Ok l1 w'
    /\ wf_locals size l' = true
    /\ bufferSize l1 < size
    /\ bufferSize l' = bufferSize l1 + 1
    /\ batch l' = batch l1 ++ [msg].
Proof.
  intros Hwf Hint Hb.
  assert (Hpos : 0 < size).
  { destruct (decide (0 < size)) as [|Hn]; [assumption|exfalso].
    apply wf_locals_spec in Hwf as ([H0 H1] & Hlb & _).
    assert (E : bufferSize l = 0) by lia.
    unfold loop_body in Hb. unfold_monad.
    replace (size <=? bufferSize l) with true in Hb
      by (symmetry; apply Z.leb_le; lia).
    rewrite flush_empty in Hb by exact E.
    unfold slice_set in Hb. simpl in Hb. rewrite E in Hb.
    replace (0 <? Z.of_nat (length (buffer l))) with false in Hb
      by (symmetry; apply Z.ltb_ge; lia).
    simpl in Hb. discriminate. }
  destruct (loop_body_recv env size flushInterval l msg w Hwf Hint Hpos)
    as (l1 & w1 & l' & Hpre & Hlb & Hwf' & Hlt & Hbs & Hbt & _).
  rewrite Hlb in Hb. injection Hb as <- <-.
  exists l1, l'. repeat split; assumption.
Qed.

End FlushTrace.

(** ** The invariant of the system *)

Lemma trace_emit e w : trace (emit e w) = trace w ++ [e].
Proof. reflexivity. Qed.

Section Invariant.
Context (env : Env).

Lemma sys_step_size s a s' :
  sys_step env s a = Stepped s' -> sysSize s' = sysSize s.
Proof.
  destruct a; simpl; unfold Write, close_step, worker_iter.
  - destruct (chan_send _ _); intros [= <-]; reflexivity.
  - destruct (0 <=? d); intros [= <-]; reflexivity.
  - destruct (sysTickerStopped s); intros [= <-]; reflexivity.
  - destruct (sysWorker s); try discriminate.
    destruct (loop_init _ _); intros [= <-]; reflexivity.
  - destruct (sysWorker s); try discriminate.
    destruct (chan_recv _) as [[sel c]| |]; try discriminate. simpl.
    destruct (loop_body _ _ _ _ _ _) as [[l'|l'] w'|]; try discriminate.
    + intros [= <-]; reflexivity.
    + destruct (loop_exit _ _ _); intros [= <-]; reflexivity.
  - destruct (sysWorker s); try discriminate.
    destruct (sysTickPending s); try discriminate. simpl.
    destruct (loop_body _ _ _ _ _ _) as [[l'|l'] w'|]; try discriminate.
    + intros [= <-]; reflexivity.
    + destruct (loop_exit _ _ _); intros [= <-]; reflexivity.
  - destruct (sysCloser s); try (destruct (chan_close _));
      try (destruct (sysDone s)); intros [= <-]; reflexivity.
Qed.

(** A running worker goes on: its new events are those of a flush. *)
Lemma inv_continue s l l' w' evs msgs :
  sys_inv env s ->
  sysWorker s = WRunning l ->
  wf_locals (sysSize s) l' = true ->
  trace w' = trace (sysWorld s) ++ evs ->
  Forall (flush_event msgs) evs ->
  Forall (event_ok env (sysSize s)) evs ->
  sys_inv env (with_worker (WRunning l') (with_world w' s)).
Proof.
  intros (Hwf & Hev & Hp) Hw Hwf' Ht Hfe Hok.
  pose proof (Forall_flush_event_no_shutdown _ _ Hfe) as Hns.
  unfold sys_inv, worker_wf, proto_inv in *. simpl. rewrite Hw in *.
  split; [exact Hwf'|]. split.
  { rewrite Ht. apply Forall_app. split; assumption. }
  rewrite Ht.
  destruct (sysCloser s); try contradiction.
  - destruct Hp as (Hc & Hd & Hq). repeat split; try assumption.
    apply Forall_app. split; assumption.
  - destruct Hp as (Hc & Hd & t1 & t2 & -> & H1 & H2).
    repeat split; try assumption.
    exists t1, (t2 ++ evs). rewrite <- app_assoc. simpl.
    repeat split; try assumption. apply Forall_app. split; assumption.
  - destruct Hp as (Hc & Hd & t1 & t2 & -> & H1 & H2).
    repeat split; try assumption.
    exists t1, (t2 ++ evs). rewrite <- app_assoc. simpl.
    repeat split; try assumption. apply Forall_app. split; assumption.
Qed.

(** The inbound channel loses its first item. *)
Lemma inv_with_buffer s c l :
  sys_inv env s ->
  sysWorker s = WRunning l ->
  chClosed c = chClosed (sysBuffer s) ->
  sys_inv env (with_buffer c s).
Proof.
  intros (Hwf & Hev & Hp) Hw Hc.
  unfold sys_inv, worker_wf, proto_inv in *. simpl. rewrite Hw in *.
  rewrite Hc. repeat split; try assumption.
Qed.

Lemma inv_with_tickPending s b :
  sys_inv env s -> sys_inv env (with_tickPending b s).
Proof. intros H. exact H. Qed.

(** The worker sees the closure: it stops the ticker, flushes and
    closes [doneCh]. *)
Lemma inv_exit s l l' w' :
  sys_inv env s ->
  sysWorker s = WRunning l ->
  chClosed (sysBuffer s) = true ->
  chQueue (sysBuffer s) = [] ->
  loop_exit env l (sysWorld s) = Ok l' w' ->
  sys_inv env (with_worker (WExited l')
                 (with_done true (with_tickerStopped true (with_world w' s)))).
Proof.
  intros (Hwf & Hev & Hp) Hw Hcl Hq Hex.
  unfold sys_inv, worker_wf, proto_inv in *. simpl. rewrite Hw in *.
  unfold loop_exit in Hex. unfold_monad.
  destruct (flush env l (emit EvTickerStop (sysWorld s))) as [l1 w1|] eqn:Hf;
    [|discriminate].
  injection Hex as <- <-.
  destruct (flush_ok env _ l (emit EvTickerStop (sysWorld s)) Hwf)
    as (l2 & w2 & evs0 & Hf2 & _ & Hwf1 & _).
  rewrite Hf in Hf2. injection Hf2 as <- <-.
  destruct (flush_trace env _ l _ _ _ Hwf Hf)
    as (fl & Ht & Hfe & Hok & _ & Hpub).
  split; [exact Hwf1|]. split.
  { simpl. rewrite ?trace_emit, Ht, ?trace_emit.
    repeat (apply Forall_app; split); try assumption; repeat constructor. }
  assert (Hdr : forall t1 t2,
             trace (sysWorld s) = t1 ++ EvCloseBuffer :: t2 ->
             Forall no_shutdown t1 -> Forall no_shutdown t2 ->
             drained env (sysSize s) l1 (trace (emit EvCloseDone w1))).
  { intros t1 t2 E H1 H2.
    exists t1, t2, fl, [], l, (emit EvTickerStop (sysWorld s)), w1.
    rewrite !trace_emit, Ht, !trace_emit, E, <- ?app_assoc. simpl.
    rewrite <- ?app_assoc. simpl.
    repeat split; try assumption; try constructor. }
  destruct (sysCloser s); try contradiction.
  - destruct Hp as (Hc & _). congruence.
  - destruct Hp as (_ & _ & t1 & t2 & E & H1 & H2).
    repeat split; try assumption. eapply Hdr; eassumption.
  - destruct Hp as (_ & _ & t1 & t2 & E & H1 & H2).
    repeat split; try assumption. eapply Hdr; eassumption.
Qed.

Lemma inv_with_world s w' :
  trace w' = trace (sysWorld s) ->
  sys_inv env s -> sys_inv env (with_world w' s).
Proof.
  intros Ht (Hwf & Hev & Hp).
  unfold sys_inv, worker_wf, proto_inv in *. simpl. rewrite Ht.
  repeat split; assumption.
Qed.

Lemma inv_init size flushInterval queueSize t :
  sys_inv env (newBufferedWriterWith size flushInterval queueSize (boot t)).
Proof.
  unfold sys_inv, worker_wf, proto_inv. simpl.
  repeat split; constructor.
Qed.

(** A running worker iterates on an item or on a tick. *)
Lemma inv_iter s l sel s' :
  is_int (sysSize s) ->
  sys_inv env s ->
  sysWorker s = WRunning l ->
  (sel = RecvClosed ->
   chClosed (sysBuffer s) = true /\ chQueue (sysBuffer s) = []) ->
  worker_iter env l sel s = Stepped s' ->
  sys_inv env s'.
Proof.
  intros Hint Hinv Hw Hsel Hit.
  pose proof Hinv as (Hwf & _). unfold worker_wf in Hwf. rewrite Hw in Hwf.
  unfold worker_iter in Hit.
  destruct (loop_body env (sysSize s) (sysFlushInterval s) l sel (sysWorld s))
    as [n w'|] eqn:Hb; [|discriminate].
  destruct sel as [msg| |].
  - destruct (loop_body_recv_inv env _ _ _ _ _ _ _ Hwf Hint Hb)
      as (l1 & l' & -> & Hpre & Hwf' & _).
    injection Hit as <-.
    destruct (sysSize s <=? bufferSize l).
    + destruct (flush_trace env _ _ _ _ _ Hwf Hpre) as (evs & Ht & Hfe & Hok & _).
      eapply inv_continue; eassumption.
    + injection Hpre as <- <-.
      eapply (inv_continue s l l' (sysWorld s) [] []); try eassumption;
        try constructor. rewrite app_nil_r. reflexivity.
  - unfold loop_body in Hb. unfold_monad. injection Hb as <- <-.
    destruct (loop_exit env l (sysWorld s)) as [l'' w''|] eqn:Hex;
      [|discriminate].
    injection Hit as <-. destruct (Hsel eq_refl) as [Hc Hq].
    eapply inv_exit; eassumption.
  - rewrite loop_body_tick in Hb.
    destruct (lastFlush l + sysFlushInterval s <? now (sysWorld s)).
    + destruct (flush env l (sysWorld s)) as [l1 w1|] eqn:Hf; [|discriminate].
      injection Hb as <- <-. injection Hit as <-.
      destruct (flush_ok env _ l (sysWorld s) Hwf)
        as (l2 & w2 & evs0 & Hf2 & _ & Hwf1 & _).
      rewrite Hf in Hf2. injection Hf2 as <- <-.
      destruct (flush_trace env _ _ _ _ _ Hwf Hf) as (evs & Ht & Hfe & Hok & _).
      eapply inv_continue; eassumption.
    + injection Hb as <- <-. injection Hit as <-.
      eapply (inv_continue s l l (sysWorld s) [] []); try eassumption;
        try constructor. rewrite app_nil_r. reflexivity.
Qed.

(** Every step keeps the invariant. *)
Lemma sys_step_inv s a s' :
  is_int (sysSize s) ->
  sys_inv env s ->
  sys_step env s a = Stepped s' ->
  sys_inv env s'.
Proof.
  intros Hint Hinv Hstep. destruct a; simpl in Hstep.
  - (* Write *)
    unfold Write, chan_send in Hstep.
    destruct (chClosed (sysBuffer s)) eqn:Hc; [discriminate|].
    destruct (_ <? _); [|discriminate]. injection Hstep as <-.
    destruct Hinv as (Hwf & Hev & Hp).
    unfold sys_inv, worker_wf, proto_inv in *. simpl.
    split; [exact Hwf|]. split; [exact Hev|].
    destruct (sysWorker s), (sysCloser s); try contradiction;
      try (destruct Hp as (Hc' & _); congruence);
      destruct Hp as (_ & Hd & Hq); repeat split; assumption.
  - (* time passes *)
    destruct (0 <=? d); [|discriminate]. injection Hstep as <-.
    apply inv_with_world; [reflexivity | exact Hinv].
  - (* the ticker fires *)
    destruct (sysTickerStopped s); [discriminate|]. injection Hstep as <-.
    exact Hinv.
  - (* the goroutine starts *)
    destruct (sysWorker s) eqn:Hw; try discriminate.
    destruct (decide (0 <= sysSize s)) as [Hs|Hs].
    + destruct (loop_init_ok (sysSize s) (sysWorld s) Hs)
        as (l & Hl & Hwf & _).
      rewrite Hl in Hstep. injection Hstep as <-.
      destruct Hinv as (_ & Hev & Hp).
      unfold sys_inv, worker_wf, proto_inv in *. simpl. rewrite Hw in Hp.
      repeat split; assumption.
    + destruct (loop_init_neg (sysSize s) (sysWorld s)) as (m & Hl); [lia|].
      rewrite Hl in Hstep. discriminate.
  - (* the worker receives *)
    destruct (sysWorker s) as [|l|] eqn:Hw; try discriminate.
    unfold chan_recv in Hstep.
    destruct (chQueue (sysBuffer s)) as [|x q] eqn:Hq.
    + destruct (chClosed (sysBuffer s)) eqn:Hc; [|discriminate].
      eapply (inv_iter (with_buffer (sysBuffer s) s)); try exact Hstep.
      * exact Hint.
      * eapply inv_with_buffer; [exact Hinv | exact Hw | reflexivity].
      * exact Hw.
      * intros _. simpl. split; assumption.
    + eapply (inv_iter (with_buffer _ s)); try exact Hstep.
      * exact Hint.
      * eapply inv_with_buffer; [exact Hinv | exact Hw | reflexivity].
      * exact Hw.
      * discriminate.
  - (* the worker takes a tick *)
    destruct (sysWorker s) as [|l|] eqn:Hw; try discriminate.
    destruct (sysTickPending s); [|discriminate].
    eapply (inv_iter (with_tickPending false s)); try exact Hstep.
    + exact Hint.
    + exact Hinv.
    + exact Hw.
    + discriminate.
  - (* close *)
    unfold close_step, chan_close in Hstep.
    destruct Hinv as (Hwf & Hev & Hp).
    unfold sys_inv, worker_wf, proto_inv in *.
    destruct (sysCloser s) eqn:Hcl.
    + destruct (chClosed (sysBuffer s)) eqn:Hc; [discriminate|].
      injection Hstep as <-. simpl. rewrite ?trace_emit.
      split; [exact Hwf|].
      split; [apply Forall_app; split; [exact Hev | repeat constructor]|].
      destruct (sysWorker s); try contradiction;
        destruct Hp as (_ & Hd & Hq); repeat split; try assumption;
        exists (trace (sysWorld s)), []; repeat split;
        try assumption; constructor.
    + injection Hstep as <-. simpl. rewrite ?trace_emit.
      split; [exact Hwf|].
      split; [apply Forall_app; split; [exact Hev | repeat constructor]|].
      destruct (sysWorker s) as [|l|l'].
      * destruct Hp as (Hc & Hd & t1 & t2 & -> & H1 & H2).
        repeat split; try assumption.
        exists t1, (t2 ++ [EvTickerStop]). rewrite <- app_assoc.
        repeat split; try assumption.
        apply Forall_app; split; [exact H2 | repeat constructor].
      * destruct Hp as (Hc & Hd & t1 & t2 & -> & H1 & H2).
        repeat split; try assumption.
        exists t1, (t2 ++ [EvTickerStop]). rewrite <- app_assoc.
        repeat split; try assumption.
        apply Forall_app; split; [exact H2 | repeat constructor].
      * destruct Hp as (Hc & Hd & Hq & t1 & t2 & fl & t3 & l & w & w'
                        & -> & H1 & H2 & Hfl & H3 & Hwfl & Hf & Htw & Htw'
                        & Hpub).
        repeat split; try assumption.
        exists t1, t2, fl, (t3 ++ [EvTickerStop]), l, w, w'.
        repeat split; try assumption.
        -- repeat (rewrite <- ?app_assoc; simpl). reflexivity.
        -- apply Forall_app; split; [exact H3 | repeat constructor].
    + destruct (sysDone s) eqn:Hd; [|discriminate].
      injection Hstep as <-. simpl.
      split; [exact Hwf|]. split; [exact Hev|].
      destruct (sysWorker s); try (destruct Hp as (_ & Hd' & _); congruence).
      rewrite Hd. exact Hp.
    + injection Hstep as <-. simpl. rewrite ?trace_emit.
      split; [exact Hwf|].
      split; [apply Forall_app; split; [exact Hev | repeat constructor]|].
      destruct (sysWorker s); try contradiction.
      destruct Hp as (Hc & Hd & Hq & Hdr).
      repeat split; try assumption.
      exists (trace (sysWorld s)). split; [reflexivity | exact Hdr].
    + destruct (sysWorker s); try contradiction.
      destruct Hp as (Hc & _). rewrite Hc in Hstep. discriminate.
Qed.

Lemma exec_size acts : forall s s',
  exec env acts s = inl s' -> sysSize s' = sysSize s.
Proof.
  induction acts as [|a acts IH]; intros s s' H; simpl in H.
  - injection H as <-. reflexivity.
  - destruct (sys_step env s a) as [s1| |] eqn:E; try discriminate.
    + rewrite (IH _ _ H). eapply sys_step_size; eassumption.
    + apply IH; assumption.
Qed.

(** The invariant holds along every schedule. *)
Lemma exec_inv acts : forall s s',
  is_int (sysSize s) ->
  sys_inv env s ->
  exec env acts s = inl s' ->
  sys_inv env s'.
Proof.
  induction acts as [|a acts IH]; intros s s' Hint Hinv H; simpl in H.
  - injection H as <-. exact Hinv.
  - destruct (sys_step env s a) as [s1| |] eqn:E; try discriminate.
    + eapply (IH s1); [|eapply sys_step_inv; eassumption | exact H].
      rewrite (sys_step_size _ _ _ E). exact Hint.
    + eapply IH; eassumption.
Qed.

End Invariant.

(** ** Where the published payloads come from *)

Section Provenance.
Context (env : Env).

Lemma flush_event_values_in (W : list bytes) (ps : list bytes) evs :
  (forall x, x ∈ ps -> x ∈ W) ->
  Forall (flush_event (message_of env <$> ps)) evs ->
  Forall (values_in W) evs.
Proof.
  intros HW H. eapply Forall_impl; [exact H|].
  intros [msgs ?| | | | | | | |]; simpl; try tauto.
  intros -> m Hm. apply list_elem_of_fmap in Hm as (x & -> & Hx).
  simpl. apply HW. exact Hx.
Qed.

Lemma provenance_mono W W' s :
  (forall x, x ∈ W -> x ∈ W') -> provenance W s -> provenance W' s.
Proof.
  intros HW (Hq & Hb & Ht). split; [|split].
  - intros x Hx. apply HW, Hq, Hx.
  - intros x Hx. apply HW, Hb, Hx.
  - eapply Forall_impl; [exact Ht|].
    intros [msgs ?| | | | | | | |]; simpl; try tauto.
    intros H m Hm. apply HW, H, Hm.
Qed.

Lemma batch_empty l : bufferSize l = 0 -> batch l = [].
Proof. intros E. unfold batch. rewrite E. reflexivity. Qed.

(** An iteration of the worker publishes only what it had accumulated,
    and accumulates only what it received. *)
Lemma worker_iter_provenance W s l sel s' :
  is_int (sysSize s) ->
  wf_locals (sysSize s) l = true ->
  (forall x, x ∈ batch l -> x ∈ W) ->
  (forall x, sel = RecvMsg x -> x ∈ W) ->
  Forall (values_in W) (trace (sysWorld s)) ->
  worker_iter env l sel s = Stepped s' ->
  sysBuffer s' = sysBuffer s
  /\ (forall x, x ∈ worker_batch s' -> x ∈ W)
  /\ Forall (values_in W) (trace (sysWorld s')).
Proof.
  intros Hint Hwf Hb Hsel Ht Hit. unfold worker_iter in Hit.
  destruct (loop_body env (sysSize s) (sysFlushInterval s) l sel (sysWorld s))
    as [n w'|] eqn:Hlb; [|discriminate].
  destruct sel as [msg| |].
  - destruct (loop_body_recv_inv env _ _ _ _ _ _ _ Hwf Hint Hlb)
      as (l1 & l' & -> & Hpre & Hwf' & _ & _ & Hbt).
    injection Hit as <-. split; [reflexivity|].
    unfold worker_batch. simpl. rewrite Hbt.
    destruct (sysSize s <=? bufferSize l).
    + destruct (flush_trace env _ _ _ _ _ Hwf Hpre) as (evs & Htr & Hfe & _).
      destruct (flush_ok env _ l (sysWorld s) Hwf)
        as (l2 & w2 & evs0 & Hf & _ & _ & Hz & _).
      rewrite Hpre in Hf. injection Hf as <- <-.
      rewrite (batch_empty _ Hz). split.
      * intros x Hx. apply list_elem_of_singleton in Hx as ->.
        apply Hsel. reflexivity.
      * rewrite Htr. apply Forall_app. split; [exact Ht|].
        eapply flush_event_values_in; eassumption.
    + injection Hpre as <- <-. split; [|exact Ht].
      intros x Hx. apply elem_of_app in Hx as [Hx|Hx]; [apply Hb, Hx|].
      apply list_elem_of_singleton in Hx as ->. apply Hsel. reflexivity.
  - unfold loop_body in Hlb. unfold_monad. injection Hlb as <- <-.
    unfold loop_exit in Hit. unfold_monad.
    destruct (flush env l (emit EvTickerStop (sysWorld s))) as [l1 w1|] eqn:Hf;
      [|discriminate].
    injection Hit as <-. split; [reflexivity|].
    destruct (flush_trace env _ _ _ _ _ Hwf Hf) as (evs & Htr & Hfe & _).
    destruct (flush_ok env _ l (emit EvTickerStop (sysWorld s)) Hwf)
      as (l2 & w2 & evs0 & Hf2 & _ & _ & Hz & _).
    rewrite Hf in Hf2. injection Hf2 as <- <-.
    unfold worker_batch. simpl. rewrite (batch_empty _ Hz). split.
    + intros x Hx. inversion Hx.
    + rewrite Htr, trace_emit.
      repeat (apply Forall_app; split); try assumption;
        try (repeat constructor).
      eapply flush_event_values_in; eassumption.
  - rewrite loop_body_tick in Hlb.
    destruct (lastFlush l + sysFlushInterval s <? now (sysWorld s)).
    + destruct (flush env l (sysWorld s)) as [l1 w1|] eqn:Hf; [|discriminate].
      injection Hlb as <- <-. injection Hit as <-. split; [reflexivity|].
      destruct (flush_trace env _ _ _ _ _ Hwf Hf) as (evs & Htr & Hfe & _).
      destruct (flush_ok env _ l (sysWorld s) Hwf)
        as (l2 & w2 & evs0 & Hf2 & _ & _ & Hz & _).
      rewrite Hf in Hf2. injection Hf2 as <- <-.
      unfold worker_batch. simpl. rewrite (batch_empty _ Hz). split.
      * intros x Hx. inversion Hx.
      * rewrite Htr. apply Forall_app. split; [exact Ht|].
        eapply flush_event_values_in; eassumption.
    + injection Hlb as <- <-. injection Hit as <-. split; [reflexivity|].
      split; [exact Hb | exact Ht].
Qed.

Lemma sys_step_provenance W s a s' :
  is_int (sysSize s) ->
  sys_inv env s ->
  provenance W s ->
  sys_step env s a = Stepped s' ->
  provenance (W ++ written [a]) s'.
Proof.
  intros Hint (Hwf & _) Hprov Hstep.
  assert (Hmono : forall x, x ∈ W -> x ∈ W ++ written [a]).
  { intros x Hx. apply elem_of_app. left. exact Hx. }
  destruct a; simpl in Hstep.
  - (* Write *)
    unfold Write, chan_send in Hstep.
    destruct (chClosed (sysBuffer s)); [discriminate|].
    destruct (_ <? _); [|discriminate]. injection Hstep as <-.
    apply (provenance_mono W _ _ Hmono) in Hprov.
    destruct Hprov as (Hq & Hb & Ht). split; [|split; assumption].
    simpl. intros x Hx. apply elem_of_app in Hx as [Hx|Hx]; [apply Hq, Hx|].
    apply list_elem_of_singleton in Hx as ->.
    apply elem_of_app. right. apply elem_of_cons. left. reflexivity.
  - destruct (0 <=? d); [|discriminate]. injection Hstep as <-.
    apply (provenance_mono W _ _ Hmono). exact Hprov.
  - destruct (sysTickerStopped s); [discriminate|]. injection Hstep as <-.
    apply (provenance_mono W _ _ Hmono). exact Hprov.
  - destruct (sysWorker s) eqn:Hw; try discriminate.
    destruct (loop_init (sysSize s) (sysWorld s)) as [l w'|] eqn:Hl;
      [|discriminate].
    injection Hstep as <-.
    apply (provenance_mono W _ _ Hmono).
    destruct Hprov as (Hq & Hb & Ht).
    unfold loop_init, make in Hl. unfold_monad.
    destruct (sysSize s <? 0); [discriminate|]. injection Hl as <- <-.
    split; [exact Hq|]. split; [|exact Ht].
    unfold worker_batch. simpl. intros x Hx. inversion Hx.
  - destruct (sysWorker s) as [|l|] eqn:Hw; try discriminate.
    unfold worker_wf in Hwf. rewrite Hw in Hwf.
    apply (provenance_mono W _ _ Hmono).
    destruct Hprov as (Hq & Hb & Ht).
    unfold worker_batch in Hb. rewrite Hw in Hb.
    unfold chan_recv in Hstep.
    destruct (chQueue (sysBuffer s)) as [|x q] eqn:Eq.
    + destruct (chClosed (sysBuffer s)); [|discriminate].
      destruct (worker_iter_provenance W (with_buffer (sysBuffer s) s) l
                  RecvClosed s' Hint Hwf Hb ltac:(discriminate) Ht Hstep)
        as (Hbuf & Hb' & Ht').
      split; [|split; assumption].
      rewrite Hbuf. simpl. rewrite Eq. intros y Hy. inversion Hy.
    + match type of Hstep with
      | worker_iter env l (RecvMsg x) (with_buffer ?c s) = _ =>
          destruct (worker_iter_provenance W (with_buffer c s) l
                      (RecvMsg x) s' Hint Hwf Hb) as (Hbuf & Hb' & Ht');
            [| exact Ht | exact Hstep |]
      end.
      * intros y [= <-]. apply Hq. apply elem_of_cons. left. reflexivity.
      * split; [|split; assumption].
        rewrite Hbuf. simpl. intros y Hy. apply Hq.
        apply elem_of_cons. right. exact Hy.
  - destruct (sysWorker s) as [|l|] eqn:Hw; try discriminate.
    unfold worker_wf in Hwf. rewrite Hw in Hwf.
    destruct (sysTickPending s); [|discriminate].
    apply (provenance_mono W _ _ Hmono).
    destruct Hprov as (Hq & Hb & Ht).
    unfold worker_batch in Hb. rewrite Hw in Hb.
    destruct (worker_iter_provenance W (with_tickPending false s) l
                TickerC s' Hint Hwf Hb ltac:(discriminate) Ht Hstep)
      as (Hbuf & Hb' & Ht').
    split; [|split; assumption]. rewrite Hbuf. exact Hq.
  - apply (provenance_mono W _ _ Hmono).
    destruct Hprov as (Hq & Hb & Ht).
    unfold close_step, chan_close in Hstep.
    destruct (sysCloser s).
    + destruct (chClosed (sysBuffer s)); [discriminate|].
      injection Hstep as <-. split; [exact Hq|]. split; [exact Hb|].
      simpl. rewrite ?trace_emit. apply Forall_app.
      split; [exact Ht | repeat constructor].
    + injection Hstep as <-. split; [exact Hq|]. split; [exact Hb|].
      simpl. rewrite ?trace_emit. apply Forall_app.
      split; [exact Ht | repeat constructor].
    + destruct (sysDone s); [|discriminate]. injection Hstep as <-.
      split; [exact Hq|]. split; [exact Hb | exact Ht].
    + injection Hstep as <-. split; [exact Hq|]. split; [exact Hb|].
      simpl. rewrite ?trace_emit. apply Forall_app.
      split; [exact Ht | repeat constructor].
    + destruct (chClosed (sysBuffer s)); [discriminate|].
      injection Hstep as <-. split; [exact Hq|]. split; [exact Hb|].
      simpl. rewrite ?trace_emit. apply Forall_app.
      split; [exact Ht | repeat constructor].
Qed.

Lemma written_app a1 a2 : written (a1 ++ a2) = written a1 ++ written a2.
Proof. unfold written. apply omap_app. Qed.

Lemma exec_provenance acts : forall W s s',
  is_int (sysSize s) ->
  sys_inv env s ->
  provenance W s ->
  exec env acts s = inl s' ->
  provenance (W ++ written acts) s'.
Proof.
  induction acts as [|a acts IH]; intros W s s' Hint Hinv Hp H; simpl in H.
  - injection H as <-. simpl. rewrite app_nil_r. exact Hp.
  - change (a :: acts) with ([a] ++ acts). rewrite written_app, app_assoc.
    destruct (sys_step env s a) as [s1| |] eqn:E; try discriminate.
    + eapply (IH _ s1); [| eapply sys_step_inv; eassumption
                          | eapply sys_step_provenance; eassumption | exact H].
      rewrite (sys_step_size _ _ _ _ E). exact Hint.
    + eapply IH; try eassumption.
      eapply provenance_mono; [|exact Hp].
      intros x Hx. apply elem_of_app. left. exact Hx.
Qed.

End Provenance.

(** ** The shutdown completes *)

Section Progress.
Context (env : Env).




End Progress.

(** * The claims *)

(** ** Flush *)

(** C7. A flush invoked while the accumulation buffer is empty makes no
    call of the broker and adds to no counter -- the world is left as it
    is -- and still moves the last-flush timestamp to the current time. *)
Theorem flush_empty_noop (env : Env) (l : Locals) (w : World) :
  bufferSize l = 0 ->
  exists l' w',
    flush env l w = Ok l' w'
    /\ trace w' = trace w
    /\ counters w' = counters w
    /\ calls w' = calls w
    /\ lastFlush l' = now w'
    /\ now w' = now w
    /\ bufferSize l' = 0
    /\ buffer l' = buffer l
    /\ buffer2 l' = buffer2 l.
Proof.
  intros E. exists (set_lastFlush (now w) l), w.
  rewrite flush_empty by exact E. simpl. repeat split. exact E.
Qed.

Lemma flush_empty_noop_witness :
  bufferSize locals_empty = 0
  /\ exists l' w',
       flush (broker_up id) locals_empty (elapse 5 (boot 0)) = Ok l' w'
       /\ trace w' = [] /\ lastFlush l' = 5.
Proof.
  split; [reflexivity|].
  destruct (flush_empty_noop (broker_up id) locals_empty (elapse 5 (boot 0)))
    as (l' & w' & Hf & Ht & _ & _ & Hl & Hn & _); [reflexivity|].
  exists l', w'. split; [exact Hf|]. split; [exact Ht|].
  rewrite Hl, Hn. reflexivity.
Defined.

(** C8. In a flush of a non-empty buffer every call of the broker carries
    the whole batch: the messages of all [bufferSize] accumulated
    payloads, in order, each with its key.  At least one call is made and
    no call carries anything else. *)
Theorem flush_single_call (env : Env) (size : Z) (l : Locals) (w : World) :
  wf_locals size l = true ->
  bufferSize l <> 0 ->
  exists l' w' evs,
    flush env l w = Ok l' w'
    /\ trace w' = trace w ++ evs
    /\ published evs <> []
    /\ forall msgs err,
         (msgs, err) ∈ published evs ->
         msgs = message_of env <$> batch l
         /\ Z.of_nat (length msgs) = bufferSize l
         /\ Value <$> msgs = batch l
         /\ Key <$> msgs = ComputeHash256 env <$> batch l.
Proof.
  intros Hwf Hne.
  destruct (flush_ok env size l w Hwf)
    as (l' & w' & evs & Hf & Ht & _ & _ & _ & _ & Hp).
  destruct (flush_trace env size l w l' w' Hwf Hf)
    as (evs' & Ht' & _ & _ & _ & Hpub).
  rewrite Ht in Ht'. apply app_inv_head in Ht'. subst evs'.
  exists l', w', evs. split; [exact Hf|]. split; [exact Ht|].
  split; [exact (Hpub Hne)|].
  intros msgs err Hin. destruct (Hp _ Hin) as [_ Hm]. simpl in Hm. subst msgs.
  split; [reflexivity|]. split.
  - rewrite length_fmap. apply (batch_length size). exact Hwf.
  - rewrite <- !list_fmap_compose. split.
    + rewrite <- (list_fmap_id (batch l)) at 2. reflexivity.
    + reflexivity.
Qed.

Lemma flush_single_call_witness :
  wf_locals 2 locals_ab = true
  /\ bufferSize locals_ab <> 0
  /\ exists l' w' evs,
       flush (broker_up id) locals_ab (boot 0) = Ok l' w'
       /\ trace w' = evs
       /\ published evs
          = [([{| Key := payload_a; Value := payload_a |};
               {| Key := payload_b; Value := payload_b |}], None)].
Proof.
  split; [reflexivity|]. split; [discriminate|].
  destruct (flush_single_call (broker_up id) 2 locals_ab (boot 0))
    as (l' & w' & evs & Hf & Ht & _); [reflexivity | discriminate |].
  exists l', w', evs. split; [exact Hf|]. split; [exact Ht|].
  vm_compute in Hf. injection Hf as _ Hw. subst w'. simpl in Ht. subst evs.
  reflexivity.
Defined.




(** ** The loop *)

(** C5. On a tick the worker flushes only if the clock is strictly after
    [lastFlush] plus the flush interval: a tick at most one interval after
    [lastFlush] leaves the state and the world as they are, a later tick
    runs [flush].  [lastFlush] is the time at which the last flush ended,
    whatever its kind, so a tick within one interval of a flush does
    nothing. *)
Theorem tick_flush_guard (env : Env) (size flushInterval : Z)
  (l : Locals) (w : World) :
  wf_locals size l = true ->
  (now w <= lastFlush l + flushInterval ->
   loop_body env size flushInterval l TickerC w = Ok (Continue l) w)
  /\ (lastFlush l + flushInterval < now w ->
      exists l' w',
        flush env l w = Ok l' w'
        /\ loop_body env size flushInterval l TickerC w = Ok (Continue l') w')
  /\ (exists l' w',
        flush env l w = Ok l' w'
        /\ lastFlush l' = now w'
        /\ forall d, 0 <= d <= flushInterval ->
             loop_body env size flushInterval l' TickerC (elapse d w')
             = Ok (Continue l') (elapse d w')).
Proof.
  intros Hwf. split; [|split].
  - intros H. rewrite loop_body_tick.
    replace (lastFlush l + flushInterval <? now w) with false
      by (symmetry; apply Z.ltb_ge; lia).
    reflexivity.
  - intros H.
    destruct (flush_ok env size l w Hwf) as (l' & w' & evs & Hf & _).
    exists l', w'. split; [exact Hf|]. rewrite loop_body_tick.
    replace (lastFlush l + flushInterval <? now w) with true
      by (symmetry; apply Z.ltb_lt; lia).
    rewrite Hf. reflexivity.
  - destruct (flush_ok env size l w Hwf)
      as (l' & w' & evs & Hf & _ & _ & _ & Hlf & _).
    exists l', w'. split; [exact Hf|]. split; [exact Hlf|].
    intros d Hd. rewrite loop_body_tick. simpl.
    replace (lastFlush l' + flushInterval <? now w' + d) with false
      by (symmetry; apply Z.ltb_ge; lia).
    reflexivity.
Qed.

Lemma tick_flush_guard_witness :
  wf_locals 2 locals_ab = true
  /\ loop_body (broker_up id) 2 Second locals_ab TickerC (elapse Second (boot 0))
     = Ok (Continue locals_ab) (elapse Second (boot 0))
  /\ exists l' w',
       flush (broker_up id) locals_ab (elapse (Second + 1) (boot 0)) = Ok l' w'
       /\ loop_body (broker_up id) 2 Second locals_ab TickerC
            (elapse (Second + 1) (boot 0)) = Ok (Continue l') w'.
Proof.
  split; [reflexivity|].
  split.
  - apply (tick_flush_guard (broker_up id) 2 Second locals_ab
             (elapse Second (boot 0)) eq_refl).
    vm_compute. discriminate.
  - apply (tick_flush_guard (broker_up id) 2 Second locals_ab
             (elapse (Second + 1) (boot 0)) eq_refl).
    reflexivity.
Defined.

(** C4. When the buffer holds capacity-many payloads and an item arrives,
    the worker first flushes -- the broker is called with the whole
    buffer and the buffer is reset -- and only then appends the item: the
    item is alone in the buffer, which holds no more than its capacity. *)
Theorem full_buffer_flushes_first (env : Env) (size flushInterval : Z)
  (l : Locals) (msg : bytes) (w : World) :
  wf_locals size l = true ->
  is_int size ->
  0 < size ->
  bufferSize l = size ->
  exists l1 w1 evs l',
    flush env l w = Ok l1 w1
    /\ trace w1 = trace w ++ evs
    /\ published evs <> []
    /\ (forall p, p ∈ published evs -> p.1 = message_of env <$> batch l)
    /\ bufferSize l1 = 0
    /\ batch l1 = []
    /\ loop_body env size flushInterval l (RecvMsg msg) w = Ok (Continue l') w1
    /\ batch l' = [msg]
    /\ bufferSize l' = 1
    /\ bufferSize l' <= size
    /\ wf_locals size l' = true.
Proof.
  intros Hwf Hint Hpos Hfull.
  destruct (loop_body_recv env size flushInterval l msg w Hwf Hint Hpos)
    as (l1 & w1 & l' & Hpre & Hb & Hwf' & Hlt & Hbs & Hbt & _).
  replace (size <=? bufferSize l) with true in Hpre
    by (symmetry; apply Z.leb_le; lia).
  destruct (flush_ok env size l w Hwf)
    as (l2 & w2 & evs & Hf & Ht & _ & Hz & _ & _ & Hp).
  rewrite Hpre in Hf. injection Hf as <- <-.
  destruct (flush_trace env size l w l1 w1 Hwf Hpre)
    as (evs' & Ht' & _ & _ & _ & Hpub).
  rewrite Ht in Ht'. apply app_inv_head in Ht'. subst evs'.
  assert (Hb1 : batch l1 = []).
  { unfold batch. rewrite Hz. reflexivity. }
  exists l1, w1, evs, l'.
  split; [exact Hpre|]. split; [exact Ht|].
  split; [apply Hpub; lia|].
  split; [intros p Hin; apply (Hp p Hin)|].
  split; [exact Hz|]. split; [exact Hb1|]. split; [exact Hb|].
  split; [rewrite Hbt, Hb1; reflexivity|].
  split; [lia|]. split; [lia | exact Hwf'].
Qed.

Lemma full_buffer_flushes_first_witness :
  wf_locals 2 locals_ab = true
  /\ is_int 2 /\ 0 < 2 /\ bufferSize locals_ab = 2
  /\ exists l' w1,
       loop_body (broker_up id) 2 Second locals_ab (RecvMsg payload_c) (boot 0)
       = Ok (Continue l') w1
       /\ published (trace w1)
          = [(message_of (broker_up id) <$> [payload_a; payload_b], None)]
       /\ batch l' = [payload_c].
Proof.
  split; [reflexivity|]. split; [unfold is_int, int_min, int_max; lia|].
  split; [lia|]. split; [reflexivity|].
  destruct (full_buffer_flushes_first (broker_up id) 2 Second locals_ab
              payload_c (boot 0))
    as (l1 & w1 & evs & l' & _ & _ & _ & _ & _ & _ & Hb & Hbt & _);
    [reflexivity | unfold is_int, int_min, int_max; lia | lia | reflexivity |].
  exists l', w1. split; [exact Hb|]. split; [|exact Hbt].
  vm_compute in Hb. injection Hb as _ <-. reflexivity.
Defined.

(** ** The writer and its shutdown *)



(** C6. [0 <= bufferSize <= capacity] along every schedule of a writer:
    whenever the worker stands between two iterations of its loop, or has
    exited, its [bufferSize] is within the bounds and counts the
    accumulated payloads.  [bufferSize] starts at 0, every flush of a
    well-formed state returns and leaves it at 0 -- empty and failed
    flushes too --, and an arriving item finds it below the capacity,
    after the flush that makes room when the buffer was full, and raises it
    by one: from 0 after that flush and from its value otherwise. *)
Theorem bufferSize_within_capacity (env : Env)
  (size flushInterval queueSize t : Z) (acts : list Action) (s : System) :
  is_int size ->
  exec env acts (newBufferedWriterWith size flushInterval queueSize (boot t))
  = inl s ->
  match sysWorker s with
  | WStarting => True
  | WRunning l | WExited l =>
      0 <= bufferSize l <= size /\ Z.of_nat (length (batch l)) = bufferSize l
  end
  /\ (forall w l w', loop_init size w = Ok l w' -> bufferSize l = 0)
  /\ (forall l w, wf_locals size l = true ->
        exists l' w', flush env l w = Ok l' w' /\ bufferSize l' = 0)
  /\ (forall l msg w n w',
        wf_locals size l = true ->
        loop_body env size flushInterval l (RecvMsg msg) w = Ok n w' ->
        exists l1 l',
          (if size <=? bufferSize l then flush env l w else Ok l w) = Ok l1 w'
          /\ 0 <= bufferSize l1 < size
          /\ n = Continue l'
          /\ bufferSize l'
             = (if size <=? bufferSize l then 0 else bufferSize l) + 1
          /\ 0 <= bufferSize l' <= size).
Proof.
  intros Hint Hex.
  pose proof (exec_size env _ _ _ Hex) as Hsz. simpl in Hsz.
  assert (Hinv : sys_inv env s).
  { eapply exec_inv; [| apply inv_init | exact Hex]. exact Hint. }
  split; [|split; [|split]].
  - destruct Hinv as (Hwf & _). unfold worker_wf in Hwf. rewrite Hsz in Hwf.
    destruct (sysWorker s); [exact I| |];
      (split; [apply wf_locals_spec in Hwf; tauto
              | apply (batch_length size); exact Hwf]).
  - intros w l w' H. unfold loop_init, make in H. unfold_monad.
    destruct (size <? 0); [discriminate|]. injection H as <- <-. reflexivity.
  - intros l w Hwf.
    destruct (flush_ok env size l w Hwf) as (l' & w' & evs & Hf & _ & _ & Hz & _).
    exists l', w'. split; assumption.
  - intros l msg w n w' Hwf Hb.
    destruct (loop_body_recv_inv env _ _ _ _ _ _ _ Hwf Hint Hb)
      as (l1 & l' & -> & Hpre & Hwf' & Hlt & Hbs & _).
    exists l1, l'. split; [exact Hpre|].
    apply wf_locals_spec in Hwf' as (Hb' & _).
    assert (H1 : bufferSize l1
                 = if size <=? bufferSize l then 0 else bufferSize l).
    { destruct (size <=? bufferSize l).
      - destruct (flush_ok env size l w Hwf)
          as (l2 & w2 & evs & Hf & _ & _ & Hz & _).
        rewrite Hpre in Hf. injection Hf as <- <-. exact Hz.
      - injection Hpre as <- <-. reflexivity. }
    rewrite Hbs in *. rewrite H1 in *.
    apply wf_locals_spec in Hwf as (Hb0 & _).
    split; [destruct (size <=? bufferSize l); lia|].
    split; [reflexivity|]. split; [reflexivity | exact Hb'].
Qed.

Lemma bufferSize_within_capacity_witness :
  is_int 2
  /\ exists s l,
       exec (broker_up id)
         [ActWorkerStart; ActWrite payload_a; ActWrite payload_b;
          ActWrite payload_c; ActWorkerRecv; ActWorkerRecv; ActWorkerRecv]
         (newBufferedWriterWith 2 Second 10 (boot 0)) = inl s
       /\ sysWorker s = WRunning l
       /\ 0 <= bufferSize l <= 2.
Proof.
  split; [unfold is_int, int_min, int_max; lia|].
  eexists _, _. split; [vm_compute; reflexivity|].
  split; [reflexivity|].
  pose proof (bufferSize_within_capacity (broker_up id) 2 Second 10 0
                [ActWorkerStart; ActWrite payload_a; ActWrite payload_b;
                 ActWrite payload_c; ActWorkerRecv; ActWorkerRecv;
                 ActWorkerRecv] _
                ltac:(unfold is_int, int_min, int_max; lia)
                ltac:(vm_compute; reflexivity)) as (H & _).
  apply H.
Defined.

(** C9. Every message the writer hands to the broker carries a payload
    that was submitted by [Write] and, as its key, the digest of that
    payload's bytes.  So two messages with the same bytes carry the same
    key, and two messages whose bytes differ carry different keys unless
    the two payloads collide under the digest. *)
Theorem message_keys_are_digests (env : Env)
  (size flushInterval queueSize t : Z) (acts : list Action) (s : System) :
  is_int size ->
  exec env acts (newBufferedWriterWith size flushInterval queueSize (boot t))
  = inl s ->
  forall msgs1 err1 msgs2 err2 m1 m2,
    EvWriteMessages msgs1 err1 ∈ trace (sysWorld s) ->
    EvWriteMessages msgs2 err2 ∈ trace (sysWorld s) ->
    m1 ∈ msgs1 -> m2 ∈ msgs2 ->
    Value m1 ∈ written acts
    /\ Key m1 = ComputeHash256 env (Value m1)
    /\ (Value m1 = Value m2 -> Key m1 = Key m2)
    /\ (Value m1 <> Value m2 ->
        ~ collision env (Value m1) (Value m2) ->
        Key m1 <> Key m2).
Proof.
  intros Hint Hex msgs1 err1 msgs2 err2 m1 m2 H1 H2 Hm1 Hm2.
  assert (Hinv : sys_inv env s).
  { eapply exec_inv; [| apply inv_init | exact Hex]. exact Hint. }
  assert (Hprov : provenance (written acts) s).
  { apply (exec_provenance env acts []
             (newBufferedWriterWith size flushInterval queueSize (boot t)) s
             Hint (inv_init env _ _ _ _)); [|exact Hex].
    split; [|split]; simpl; try constructor; intros x Hx; inversion Hx. }
  destruct Hprov as (_ & _ & Hval). rewrite Forall_forall in Hval.
  destruct Hinv as (_ & Hev & _). rewrite Forall_forall in Hev.
  pose proof (Hev _ H1) as (_ & _ & K1). pose proof (Hev _ H2) as (_ & _ & K2).
  rewrite Forall_forall in K1, K2.
  pose proof (K1 _ Hm1) as E1. pose proof (K2 _ Hm2) as E2.
  unfold keyed in E1, E2.
  split; [exact (Hval _ H1 _ Hm1)|].
  split; [exact E1|]. split.
  - intros E. rewrite E1, E2, E. reflexivity.
  - intros Hne Hnc E. apply Hnc. split; [exact Hne|].
    rewrite <- E1, <- E2. exact E.
Qed.

Lemma message_keys_are_digests_witness :
  is_int 2
  /\ exists s,
       exec (broker_up id)
         [ActWorkerStart; ActWrite payload_a; ActWrite payload_b;
          ActWrite payload_c; ActWorkerRecv; ActWorkerRecv; ActWorkerRecv]
         (newBufferedWriterWith 2 Second 10 (boot 0)) = inl s
       /\ EvWriteMessages (message_of (broker_up id) <$> [payload_a; payload_b])
            None ∈ trace (sysWorld s)
       /\ Key (message_of (broker_up id) payload_a)
          <> Key (message_of (broker_up id) payload_b).
Proof.
  split; [unfold is_int, int_min, int_max; lia|].
  eexists. split; [vm_compute; reflexivity|].
  assert (Hin : EvWriteMessages
                  (message_of (broker_up id) <$> [payload_a; payload_b]) None
                ∈ [EvWriteMessages
                     (message_of (broker_up id) <$> [payload_a; payload_b]) None;
                   EvCounterAdd metricProcessMillisCountKey 0;
                   EvCounterAdd metricSuccessCountKey 2]).
  { apply elem_of_cons. left. reflexivity. }
  split; [exact Hin|].
  destruct (message_keys_are_digests (broker_up id) 2 Second 10 0
              [ActWorkerStart; ActWrite payload_a; ActWrite payload_b;
               ActWrite payload_c; ActWorkerRecv; ActWorkerRecv;
               ActWorkerRecv] _
              ltac:(unfold is_int, int_min, int_max; lia)
              ltac:(vm_compute; reflexivity)
              _ _ _ _ (message_of (broker_up id) payload_a)
              (message_of (broker_up id) payload_b) Hin Hin)
    as (_ & _ & _ & Hd).
  - apply elem_of_cons. left. reflexivity.
  - apply elem_of_cons. right. apply elem_of_cons. left. reflexivity.
  - apply Hd; [discriminate|]. intros [_ Hc]. discriminate.
Defined.

(** C10. Once [close] has been called, the inbound channel is closed for
    good: every later [Write] panics on its send, whatever the payload and
    however full the queue, and a second call of [close], after the first
    has returned, panics on closing the channel again.  Neither returns
    an error. *)
Theorem misuse_after_close_panics (env : Env)
  (size flushInterval queueSize t : Z) (acts : list Action) (s : System) :
  is_int size ->
  exec env acts (newBufferedWriterWith size flushInterval queueSize (boot t))
  = inl s ->
  sysCloser s <> CloseIdle ->
  chClosed (sysBuffer s) = true
  /\ (forall msg, Write msg s = Crash "send on closed channel")
  /\ (forall msg, sys_step env s (ActWrite msg) = Crash "send on closed channel")
  /\ (forall e, sysCloser s = CloseReturned e ->
        sys_step env s ActClose = Crash "close of closed channel").
Proof.
  intros Hint Hex Hcl.
  assert (Hinv : sys_inv env s).
  { eapply exec_inv; [| apply inv_init | exact Hex]. exact Hint. }
  assert (Hc : chClosed (sysBuffer s) = true).
  { destruct Hinv as (_ & _ & Hp). unfold proto_inv in Hp.
    destruct (sysWorker s), (sysCloser s); try contradiction;
      try (destruct Hp as (Hc & _); exact Hc). }
  split; [exact Hc|].
  assert (Hw : forall msg, Write msg s = Crash "send on closed channel").
  { intros msg. unfold Write, chan_send. rewrite Hc. reflexivity. }
  split; [exact Hw|]. split; [exact Hw|].
  intros e He. simpl. unfold close_step, chan_close. rewrite He, Hc.
  reflexivity.
Qed.

Lemma misuse_after_close_panics_witness :
  is_int 2
  /\ exists s,
       exec (broker_up id)
         [ActWorkerStart; ActClose; ActClose; ActWorkerRecv; ActClose; ActClose]
         (newBufferedWriterWith 2 Second 10 (boot 0)) = inl s
       /\ sysCloser s <> CloseIdle
       /\ Write payload_a s = Crash "send on closed channel"
       /\ sys_step (broker_up id) s ActClose = Crash "close of closed channel".
Proof.
  split; [unfold is_int, int_min, int_max; lia|].
  eexists. split; [vm_compute; reflexivity|].
  split; [discriminate|].
  pose proof (misuse_after_close_panics (broker_up id) 2 Second 10 0
                [ActWorkerStart; ActClose; ActClose; ActWorkerRecv;
                 ActClose; ActClose] _
                ltac:(unfold is_int, int_min, int_max; lia)
                ltac:(vm_compute; reflexivity)
                ltac:(discriminate)) as (_ & Hw & _ & Hc).
  split; [apply Hw | apply (Hc None); reflexivity].
Defined.

(** ** The scenario of capacity 2 *)



(** * Further properties of the writer *)

(** ** What a flush delivers and counts *)



Lemma delivered_quiet evs :
  published evs = [] -> delivered evs = [].
Proof.
  induction evs as [|e evs IH]; [reflexivity|].
  destruct e; try discriminate; exact IH.
Qed.



Section Delivery.
Context (env : Env).


End Delivery.

(** ** The accounting along a schedule *)


Section Accounting.
Context (env : Env).






End Accounting.

(** ** The payloads of a run *)

Section Runs.
Context (env : Env).



End Runs.









(** ** Bounds, panics and the end of a run *)

Section Reach.
Context (env : Env).

Lemma worker_iter_buffer l sel s s' :
  worker_iter env l sel s = Stepped s' ->
  sysBuffer s' = sysBuffer s /\ sysCloser s' = sysCloser s.
Proof.
  unfold worker_iter.
  destruct (loop_body env _ _ l sel (sysWorld s)) as [[l'|l'] w'|];
    [| destruct (loop_exit env l' w') |]; try discriminate;
    intros [= <-]; split; reflexivity.
Qed.

Lemma sys_step_queue_bounded queueSize s a s' :
  queue_bounded queueSize s ->
  sys_step env s a = Stepped s' ->
  queue_bounded queueSize s'.
Proof.
  intros (Hcap & Hlen) Hstep. unfold queue_bounded.
  destruct a; simpl in Hstep.
  - unfold Write, chan_send in Hstep.
    destruct (chClosed (sysBuffer s)); [discriminate|].
    destruct (_ <? _) eqn:E; [|discriminate]. injection Hstep as <-.
    apply Z.ltb_lt in E. simpl. rewrite length_app. simpl. lia.
  - destruct (0 <=? d); [|discriminate]. injection Hstep as <-.
    split; assumption.
  - destruct (sysTickerStopped s); [discriminate|]. injection Hstep as <-.
    split; assumption.
  - destruct (sysWorker s); try discriminate.
    destruct (loop_init _ _); [|discriminate]. injection Hstep as <-.
    split; assumption.
  - destruct (sysWorker s) as [|l|]; try discriminate.
    unfold chan_recv in Hstep.
    destruct (chQueue (sysBuffer s)) as [|x q] eqn:Eq.
    + destruct (chClosed (sysBuffer s)); [|discriminate].
      apply worker_iter_buffer in Hstep as (-> & _). simpl.
      rewrite Eq. split; [assumption | simpl; lia].
    + apply worker_iter_buffer in Hstep as (-> & _). simpl.
      simpl in Hlen. split; [assumption | lia].
  - destruct (sysWorker s) as [|l|]; try discriminate.
    destruct (sysTickPending s); [|discriminate].
    apply worker_iter_buffer in Hstep as (-> & _). split; assumption.
  - unfold close_step, chan_close in Hstep.
    destruct (sysCloser s); try (destruct (chClosed (sysBuffer s)));
      try (destruct (sysDone s)); try discriminate;
      injection Hstep as <-; split; assumption.
Qed.

Lemma exec_queue_bounded queueSize acts : forall s s',
  queue_bounded queueSize s ->
  exec env acts s = inl s' ->
  queue_bounded queueSize s'.
Proof.
  induction acts as [|a acts IH]; intros s s' Hq H; simpl in H.
  - injection H as <-. exact Hq.
  - destruct (sys_step env s a) as [s1| |] eqn:E; try discriminate.
    + eapply IH; [|exact H]. eapply sys_step_queue_bounded; eassumption.
    + eapply IH; eassumption.
Qed.

(** The worker does not panic when its capacity is positive. *)
Lemma worker_iter_no_crash l sel s m :
  is_int (sysSize s) ->
  0 < sysSize s ->
  wf_locals (sysSize s) l = true ->
  worker_iter env l sel s <> Crash m.
Proof.
  intros Hint Hpos Hwf. unfold worker_iter. destruct sel as [msg| |].
  - destruct (loop_body_recv env _ (sysFlushInterval s) l msg (sysWorld s)
                Hwf Hint Hpos) as (l1 & w1 & l' & _ & -> & _).
    discriminate.
  - unfold loop_body. unfold_monad. unfold loop_exit. unfold_monad.
    destruct (flush_ok env _ l (emit EvTickerStop (sysWorld s)) Hwf)
      as (l' & w' & evs & -> & _).
    discriminate.
  - rewrite loop_body_tick.
    destruct (_ <? _); [|discriminate].
    destruct (flush_ok env _ l (sysWorld s) Hwf) as (l' & w' & evs & -> & _).
    discriminate.
Qed.

(** While [close] has not been called the inbound channel is open and
    the worker has not exited. *)
Lemma idle_open s :
  sys_inv env s ->
  sysCloser s = CloseIdle ->
  chClosed (sysBuffer s) = false
  /\ (sysWorker s = WStarting \/ exists l, sysWorker s = WRunning l).
Proof.
  intros (_ & _ & Hp) Hc. unfold proto_inv in Hp. rewrite Hc in Hp.
  destruct (sysWorker s) as [|l|l]; try contradiction;
    (split; [apply Hp|]); [left; reflexivity | right; exists l; reflexivity].
Qed.

(** Once [close] has returned the inbound channel is closed and the
    worker has exited. *)
Lemma returned_closed s e :
  sys_inv env s ->
  sysCloser s = CloseReturned e ->
  chClosed (sysBuffer s) = true /\ exists l, sysWorker s = WExited l.
Proof.
  intros (_ & _ & Hp) Hc. unfold proto_inv in Hp. rewrite Hc in Hp.
  destruct (sysWorker s) as [|l|l]; try contradiction.
  split; [apply Hp | exists l; reflexivity].
Qed.

(** After the shutdown only time passes. *)
Lemma shut_down_step s a s' :
  sys_inv env s ->
  shut_down s ->
  sys_step env s a = Stepped s' ->
  shut_down s'
  /\ trace (sysWorld s') = trace (sysWorld s)
  /\ counters (sysWorld s') = counters (sysWorld s)
  /\ calls (sysWorld s') = calls (sysWorld s)
  /\ sysBuffer s' = sysBuffer s.
Proof.
  intros Hinv ((l & Hw) & (e & Hc)) Hstep.
  destruct (returned_closed s e Hinv Hc) as (Hcl & _).
  unfold shut_down. destruct a; simpl in Hstep.
  - unfold Write, chan_send in Hstep. rewrite Hcl in Hstep. discriminate.
  - destruct (0 <=? d); [|discriminate]. injection Hstep as <-. simpl.
    repeat split; eauto.
  - destruct (sysTickerStopped s); [discriminate|]. injection Hstep as <-.
    simpl. repeat split; eauto.
  - rewrite Hw in Hstep. discriminate.
  - rewrite Hw in Hstep. discriminate.
  - rewrite Hw in Hstep. discriminate.
  - unfold close_step, chan_close in Hstep. rewrite Hc, Hcl in Hstep.
    discriminate.
Qed.

End Reach.

(** X5. The writer holds a bounded number of payloads: along every
    schedule the inbound channel holds at most [queueSize] of them and the
    accumulation buffer at most [size] -- 1280 and 256 for the writer that
    [newBufferedWriter] builds. *)
Theorem buffered_payloads_bounded (env : Env)
  (size flushInterval queueSize t : Z) (acts : list Action) (s : System) :
  is_int size ->
  exec env acts (newBufferedWriterWith size flushInterval queueSize (boot t))
  = inl s ->
  Z.of_nat (length (chQueue (sysBuffer s))) <= Z.max 0 queueSize
  /\ Z.of_nat (length (worker_batch s)) <= Z.max 0 size.
Proof.
  intros Hint Hex. split.
  - eapply (exec_queue_bounded env queueSize acts); [|exact Hex].
    split; simpl; lia.
  - pose proof (exec_size env _ _ _ Hex) as Hsz. simpl in Hsz.
    assert (Hinv : sys_inv env s).
    { eapply exec_inv; [| apply inv_init | exact Hex]. exact Hint. }
    destruct Hinv as (Hwf & _). unfold worker_wf in Hwf. rewrite Hsz in Hwf.
    unfold worker_batch. destruct (sysWorker s) as [|l|l]; [simpl; lia| |];
      rewrite (batch_length size l Hwf);
      apply wf_locals_spec in Hwf; lia.
Qed.

Lemma buffered_payloads_bounded_witness :
  is_int defaultBufferedWriterSize
  /\ exists s,
       exec (broker_up id) run_abc (newBufferedWriter (boot 0)) = inl s
       /\ Z.of_nat (length (chQueue (sysBuffer s))) <= 1280
       /\ Z.of_nat (length (worker_batch s)) <= 256.
Proof.
  split; [unfold is_int, int_min, int_max; vm_compute; split; discriminate|].
  eexists. split; [vm_compute; reflexivity|].
  exact (buffered_payloads_bounded (broker_up id) defaultBufferedWriterSize
           defaultBufferedWriterFlushInterval
           defaultBufferedWriterMsgQueueSize 0 run_abc _
           ltac:(unfold is_int, int_min, int_max; vm_compute; split;
                 discriminate)
           ltac:(vm_compute; reflexivity)).
Defined.

(** X6. Every call of the broker, along every schedule, carries at least
    one message and at most [size] messages: a call never exceeds the
    [BatchSize] that [newBufferedWriter] configures for the Kafka
    writer. *)
Theorem broker_calls_within_batch_size (env : Env)
  (size flushInterval queueSize t : Z) (acts : list Action) (s : System)
  (msgs : list Message) (err : error) :
  is_int size ->
  exec env acts (newBufferedWriterWith size flushInterval queueSize (boot t))
  = inl s ->
  EvWriteMessages msgs err ∈ trace (sysWorld s) ->
  1 <= Z.of_nat (length msgs) <= size.
Proof.
  intros Hint Hex Hin.
  pose proof (exec_size env _ _ _ Hex) as Hsz. simpl in Hsz.
  assert (Hinv : sys_inv env s).
  { eapply exec_inv; [| apply inv_init | exact Hex]. exact Hint. }
  destruct Hinv as (_ & Hev & _). rewrite Forall_forall in Hev.
  specialize (Hev _ Hin) as (Hne & Hle & _). rewrite Hsz in Hle.
  destruct msgs; [contradiction | simpl in *; lia].
Qed.

Lemma broker_calls_within_batch_size_witness :
  is_int 2
  /\ exists s,
       exec (broker_up id) run_abc (newBufferedWriterWith 2 Second 10 (boot 0))
       = inl s
       /\ EvWriteMessages (message_of (broker_up id) <$> [payload_a; payload_b])
            None ∈ trace (sysWorld s)
       /\ 1 <= Z.of_nat (length (message_of (broker_up id)
                                   <$> [payload_a; payload_b])) <= 2.
Proof.
  split; [unfold is_int, int_min, int_max; lia|].
  eexists. split; [vm_compute; reflexivity|].
  assert (Hin : EvWriteMessages
                  (message_of (broker_up id) <$> [payload_a; payload_b]) None
                ∈ [EvWriteMessages
                     (message_of (broker_up id) <$> [payload_a; payload_b]) None;
                   EvCounterAdd metricProcessMillisCountKey 0;
                   EvCounterAdd metricSuccessCountKey 2]).
  { apply elem_of_cons. left. reflexivity. }
  split; [exact Hin|].
  exact (broker_calls_within_batch_size (broker_up id) 2 Second 10 0 run_abc
           _ _ None
           ltac:(unfold is_int, int_min, int_max; lia)
           ltac:(vm_compute; reflexivity) Hin).
Defined.

(** X7. With a positive capacity the only panics of the writer are the
    two misuses of its interface: a [Write] after [close] was called,
    which sends on the closed channel, and a [close] after [close] has
    returned, which closes it again.  The worker -- its slices, its flush
    and its deferred function -- never panics. *)
Theorem only_misuse_panics (env : Env)
  (size flushInterval queueSize t : Z) (acts : list Action) (s : System)
  (a : Action) (m : string) :
  is_int size ->
  0 < size ->
  exec env acts (newBufferedWriterWith size flushInterval queueSize (boot t))
  = inl s ->
  sys_step env s a = Crash m ->
  chClosed (sysBuffer s) = true
  /\ (((exists msg, a = ActWrite msg)
       /\ m = "send on closed channel"
       /\ sysCloser s <> CloseIdle)
      \/ (a = ActClose
          /\ m = "close of closed channel"
          /\ exists e, sysCloser s = CloseReturned e)).
Proof.
  intros Hint Hpos Hex Hstep.
  pose proof (exec_size env _ _ _ Hex) as Hsz. simpl in Hsz.
  assert (Hinv : sys_inv env s).
  { eapply exec_inv; [| apply inv_init | exact Hex]. exact Hint. }
  rewrite <- Hsz in Hint, Hpos.
  pose proof Hinv as (Hwf & _ & _). unfold worker_wf in Hwf.
  destruct a; simpl in Hstep.
  - unfold Write, chan_send in Hstep.
    destruct (chClosed (sysBuffer s)) eqn:Hcl.
    + injection Hstep as <-. split; [reflexivity|]. left.
      split; [eexists; reflexivity|]. split; [reflexivity|].
      intros Hc. destruct (idle_open env s Hinv Hc) as (Ho & _). congruence.
    + destruct (_ <? _); discriminate.
  - destruct (0 <=? d); discriminate.
  - destruct (sysTickerStopped s); discriminate.
  - destruct (sysWorker s); try discriminate.
    destruct (loop_init_ok (sysSize s) (sysWorld s)) as (l & Hl & _); [lia|].
    rewrite Hl in Hstep. discriminate.
  - destruct (sysWorker s) as [|l|]; try discriminate.
    unfold chan_recv in Hstep.
    destruct (chQueue (sysBuffer s)); [destruct (chClosed (sysBuffer s))|];
      try discriminate;
      exfalso; eapply worker_iter_no_crash; try exact Hstep; assumption.
  - destruct (sysWorker s) as [|l|]; try discriminate.
    destruct (sysTickPending s); [|discriminate].
    exfalso; eapply worker_iter_no_crash; try exact Hstep; assumption.
  - unfold close_step, chan_close in Hstep.
    destruct (sysCloser s) as [| | | |e] eqn:Hc; try discriminate.
    + destruct (idle_open env s Hinv Hc) as (Ho & _). rewrite Ho in Hstep.
      discriminate.
    + destruct (sysDone s); discriminate.
    + destruct (chClosed (sysBuffer s)) eqn:Hcl; [|discriminate].
      injection Hstep as <-. split; [reflexivity|]. right.
      split; [reflexivity|]. split; [reflexivity|]. exists e. reflexivity.
Qed.

Lemma only_misuse_panics_witness :
  is_int 2
  /\ 0 < 2
  /\ exists s,
       exec (broker_up id) run_abc_close
         (newBufferedWriterWith 2 Second 10 (boot 0)) = inl s
       /\ sys_step (broker_up id) s ActClose = Crash "close of closed channel"
       /\ chClosed (sysBuffer s) = true.
Proof.
  split; [unfold is_int, int_min, int_max; lia|]. split; [lia|].
  eexists. split; [vm_compute; reflexivity|].
  split; [reflexivity|].
  exact (proj1 (only_misuse_panics (broker_up id) 2 Second 10 0 run_abc_close
                  _ ActClose "close of closed channel"
                  ltac:(unfold is_int, int_min, int_max; lia) ltac:(lia)
                  ltac:(vm_compute; reflexivity) ltac:(reflexivity))).
Defined.

(** X8. The shutdown is final: once the worker has exited and [close]
    has returned, no schedule makes the writer call the broker, log, sleep
    or count again, and nothing enters the inbound channel -- the trace,
    the counters and the channel stay as they are. *)
Theorem shutdown_is_final (env : Env)
  (size flushInterval queueSize t : Z) (acts acts' : list Action)
  (s s' : System) :
  is_int size ->
  exec env acts (newBufferedWriterWith size flushInterval queueSize (boot t))
  = inl s ->
  shut_down s ->
  exec env acts' s = inl s' ->
  shut_down s'
  /\ trace (sysWorld s') = trace (sysWorld s)
  /\ counters (sysWorld s') = counters (sysWorld s)
  /\ calls (sysWorld s') = calls (sysWorld s)
  /\ sysBuffer s' = sysBuffer s.
Proof.
  intros Hint Hex Hsd Hex'.
  pose proof (exec_size env _ _ _ Hex) as Hsz. simpl in Hsz.
  assert (Hinv : sys_inv env s).
  { eapply exec_inv; [| apply inv_init | exact Hex]. exact Hint. }
  rewrite <- Hsz in Hint. clear Hex Hsz.
  revert s Hint Hinv Hsd Hex'.
  induction acts' as [|a acts' IH]; intros s Hint Hinv Hsd Hex'; simpl in Hex'.
  - injection Hex' as <-. repeat split; try reflexivity; apply Hsd.
  - destruct (sys_step env s a) as [s1| |] eqn:E; try discriminate.
    + destruct (shut_down_step env s a s1 Hinv Hsd E)
        as (Hsd1 & Ht & Hc & Hn & Hb).
      rewrite <- Ht, <- Hc, <- Hn, <- Hb. apply IH; try assumption.
      * rewrite (sys_step_size _ _ _ _ E). exact Hint.
      * eapply sys_step_inv; eassumption.
    + apply IH; assumption.
Qed.

Lemma shutdown_is_final_witness :
  is_int 2
  /\ exists s s',
       exec (broker_up id) run_abc_close
         (newBufferedWriterWith 2 Second 10 (boot 0)) = inl s
       /\ shut_down s
       /\ exec (broker_up id)
            [ActTick; ActWorkerTick; ActElapse Second; ActWorkerRecv] s
          = inl s'
       /\ trace (sysWorld s') = trace (sysWorld s).
Proof.
  split; [unfold is_int, int_min, int_max; lia|].
  eexists _, _. split; [vm_compute; reflexivity|].
  assert (Hsd : shut_down
                  (match exec (broker_up id) run_abc_close
                           (newBufferedWriterWith 2 Second 10 (boot 0)) with
                   | inl s => s
                   | inr _ => newBufferedWriterWith 2 Second 10 (boot 0)
                   end)).
  { split; eexists; vm_compute; reflexivity. }
  split; [exact Hsd|].
  split; [vm_compute; reflexivity|].
  exact (proj1 (proj2 (shutdown_is_final (broker_up id) 2 Second 10 0
                         run_abc_close
                         [ActTick; ActWorkerTick; ActElapse Second;
                          ActWorkerRecv] _ _
                         ltac:(unfold is_int, int_min, int_max; lia)
                         ltac:(vm_compute; reflexivity) Hsd
                         ltac:(vm_compute; reflexivity)))).
Defined.

(** ** Backpressure *)

Section Backpressure.
Context (env : Env).

Lemma worker_iter_not_blocked l sel s : worker_iter env l sel s <> Blocked.
Proof.
  unfold worker_iter.
  destruct (loop_body env _ _ l sel (sysWorld s)) as [[l'|l'] w'|];
    [| destruct (loop_exit env l' w') |]; discriminate.
Qed.

(** One iteration of a running worker on the channel makes room for a
    [Write]. *)
Lemma recv_then_write s l msg queueSize :
  is_int (sysSize s) ->
  0 < sysSize s ->
  0 < queueSize ->
  sys_inv env s ->
  queue_bounded queueSize s ->
  sysCloser s = CloseIdle ->
  sysWorker s = WRunning l ->
  exists s',
    exec env [ActWorkerRecv; ActWrite msg] s = inl s'
    /\ accepted env [ActWorkerRecv; ActWrite msg] s = [msg]
    /\ exists q, chQueue (sysBuffer s') = q ++ [msg].
Proof.
  intros Hint Hpos Hq0 Hinv (Hcap & Hlen) Hc Hw.
  destruct (idle_open env s Hinv Hc) as (Hopen & _).
  pose proof Hinv as (Hwf & _). unfold worker_wf in Hwf. rewrite Hw in Hwf.
  assert (Hs1 : exists s1,
             (sys_step env s ActWorkerRecv = Stepped s1
              \/ (sys_step env s ActWorkerRecv = Blocked /\ s1 = s))
             /\ chClosed (sysBuffer s1) = false
             /\ Z.of_nat (length (chQueue (sysBuffer s1)))
                < chCap (sysBuffer s1)).
  { cbn [sys_step]. rewrite Hw. unfold chan_recv.
    destruct (chQueue (sysBuffer s)) as [|x q] eqn:Eq.
    - rewrite Hopen. exists s. split; [right; split; reflexivity|].
      rewrite Eq. simpl. split; [assumption | lia].
    - match goal with
      | |- context [worker_iter env l (RecvMsg x) ?s0] =>
          destruct (worker_iter env l (RecvMsg x) s0) as [s1| |m] eqn:E
      end.
      + exists s1. split; [left; reflexivity|].
        apply worker_iter_buffer in E as (-> & _). simpl. simpl in Hlen.
        split; [assumption | lia].
      + exfalso. eapply worker_iter_not_blocked. exact E.
      + exfalso. eapply worker_iter_no_crash; [.. | exact E]; assumption. }
  destruct Hs1 as (s1 & Hstep & Hcl1 & Hlen1).
  assert (Hwr : sys_step env s1 (ActWrite msg)
                = Stepped (with_buffer
                             {| chQueue := chQueue (sysBuffer s1) ++ [msg];
                                chClosed := false;
                                chCap := chCap (sysBuffer s1) |} s1)).
  { cbn [sys_step]. unfold Write, chan_send. rewrite Hcl1.
    replace (_ <? _) with true by (symmetry; apply Z.ltb_lt; lia).
    reflexivity. }
  eexists. cbn [exec accepted].
  destruct Hstep as [E | [E ->]]; rewrite E, Hwr;
    (split; [reflexivity|]); (split; [reflexivity|]);
    eexists; reflexivity.
Qed.

End Backpressure.

(** X9. Backpressure ends with one iteration of the worker: while
    [close] has not been called, whatever the state of the inbound
    channel -- full too --, once the worker has run and taken one item a
    [Write] returns, without blocking or panicking, and its payload is the
    last of the channel. *)
Theorem backpressure_is_released (env : Env)
  (size flushInterval queueSize t : Z) (acts : list Action) (s : System)
  (msg : bytes) :
  is_int size ->
  0 < size ->
  0 < queueSize ->
  exec env acts (newBufferedWriterWith size flushInterval queueSize (boot t))
  = inl s ->
  sysCloser s = CloseIdle ->
  exists s',
    exec env [ActWorkerStart; ActWorkerRecv; ActWrite msg] s = inl s'
    /\ accepted env [ActWorkerStart; ActWorkerRecv; ActWrite msg] s = [msg]
    /\ exists q, chQueue (sysBuffer s') = q ++ [msg].
Proof.
  intros Hint Hpos Hq0 Hex Hc.
  pose proof (exec_size env _ _ _ Hex) as Hsz. simpl in Hsz.
  assert (Hinv : sys_inv env s).
  { eapply exec_inv; [| apply inv_init | exact Hex]. exact Hint. }
  assert (Hq : queue_bounded queueSize s).
  { eapply (exec_queue_bounded env queueSize acts); [|exact Hex].
    split; simpl; lia. }
  rewrite <- Hsz in Hint, Hpos.
  assert (Hs0 : exists s0 l,
             (sys_step env s ActWorkerStart = Stepped s0
              \/ (sys_step env s ActWorkerStart = Blocked /\ s0 = s))
             /\ sysWorker s0 = WRunning l
             /\ sysCloser s0 = CloseIdle
             /\ sysSize s0 = sysSize s).
  { cbn [sys_step].
    destruct (idle_open env s Hinv Hc) as (_ & [Hw | (l & Hw)]); rewrite Hw.
    - destruct (loop_init_ok (sysSize s) (sysWorld s)) as (l & Hl & _); [lia|].
      rewrite Hl. eexists _, l. split; [left; reflexivity|].
      split; [reflexivity|]. split; [exact Hc | reflexivity].
    - exists s, l. split; [right; split; reflexivity|].
      split; [exact Hw|]. split; [exact Hc | reflexivity]. }
  destruct Hs0 as (s0 & l & Hstep & Hw0 & Hc0 & Hsz0).
  assert (Hinv0 : sys_inv env s0).
  { destruct Hstep as [E | [_ ->]]; [|exact Hinv].
    eapply sys_step_inv; eassumption. }
  assert (Hq0' : queue_bounded queueSize s0).
  { destruct Hstep as [E | [_ ->]]; [|exact Hq].
    eapply sys_step_queue_bounded; eassumption. }
  rewrite <- Hsz0 in Hint, Hpos.
  destruct (recv_then_write env s0 l msg queueSize Hint Hpos Hq0 Hinv0 Hq0'
              Hc0 Hw0) as (s' & He & Ha & Hlast).
  exists s'.
  change (exec env [ActWorkerStart; ActWorkerRecv; ActWrite msg] s)
    with (match sys_step env s ActWorkerStart with
          | Stepped s1 => exec env [ActWorkerRecv; ActWrite msg] s1
          | Blocked => exec env [ActWorkerRecv; ActWrite msg] s
          | Crash m => inr m
          end).
  change (accepted env [ActWorkerStart; ActWorkerRecv; ActWrite msg] s)
    with (match sys_step env s ActWorkerStart with
          | Stepped s1 => accepted env [ActWorkerRecv; ActWrite msg] s1
          | Blocked => accepted env [ActWorkerRecv; ActWrite msg] s
          | Crash m => []
          end).
  destruct Hstep as [E | [E ->]]; rewrite E;
    (split; [exact He|]); (split; [exact Ha | exact Hlast]).
Qed.

Lemma backpressure_is_released_witness :
  is_int 2
  /\ 0 < 2
  /\ 0 < 2
  /\ exists s s',
       exec (broker_up id) [ActWrite payload_a; ActWrite payload_b]
         (newBufferedWriterWith 2 Second 2 (boot 0)) = inl s
       /\ sysCloser s = CloseIdle
       /\ sys_step (broker_up id) s (ActWrite payload_c) = Blocked
       /\ exec (broker_up id)
            [ActWorkerStart; ActWorkerRecv; ActWrite payload_c] s = inl s'
       /\ chQueue (sysBuffer s') = [payload_b; payload_c].
Proof.
  split; [unfold is_int, int_min, int_max; lia|].
  split; [lia|]. split; [lia|].
  destruct (backpressure_is_released (broker_up id) 2 Second 2 0
              [ActWrite payload_a; ActWrite payload_b] _ payload_c
              ltac:(unfold is_int, int_min, int_max; lia) ltac:(lia) ltac:(lia)
              ltac:(vm_compute; reflexivity) ltac:(reflexivity))
    as (s' & He & _).
  eexists _, s'. split; [vm_compute; reflexivity|].
  split; [reflexivity|]. split; [reflexivity|].
  split; [exact He|].
  vm_compute in He. injection He as <-. reflexivity.
Defined.

(** ** The attempts and the duration of a flush *)



Section FlushTime.
Context (env : Env).




End FlushTime.





(** X12. A batch is handed to the broker by one flush only.  Whether a
    flush delivered its batch or gave up, it leaves the buffer empty: the
    next flush, at whatever time and in whatever state of the world, calls
    nothing and changes only [lastFlush]; run at once, it changes nothing
    at all.  So a batch that the broker refused is not retried later. *)
Theorem flushed_batch_is_not_retried (env : Env) (size : Z) (l : Locals)
  (w : World) (l' : Locals) (w' : World) :
  wf_locals size l = true ->
  flush env l w = Ok l' w' ->
  batch l' = []
  /\ flush env l' w' = Ok l' w'
  /\ forall w2, flush env l' w2 = Ok (set_lastFlush (now w2) l') w2.
Proof.
  intros Hwf Hf.
  destruct (flush_ok env size l w Hwf)
    as (l1 & w1 & evs & Hf1 & _ & _ & Hz & Hlf & _).
  rewrite Hf in Hf1. injection Hf1 as <- <-.
  split; [apply batch_empty; exact Hz|].
  split; [|intros w2; apply flush_empty; exact Hz].
  rewrite flush_empty by exact Hz. rewrite <- Hlf.
  destruct l'; reflexivity.
Qed.

Lemma flushed_batch_is_not_retried_witness :
  wf_locals 2 locals_ab = true
  /\ exists l' w',
       flush (broker_down id) locals_ab (boot 0) = Ok l' w'
       /\ batch l' = []
       /\ flush (broker_down id) l' w' = Ok l' w'.
Proof.
  split; [reflexivity|].
  eexists _, _. split; [vm_compute; reflexivity|].
  destruct (flushed_batch_is_not_retried (broker_down id) 2 locals_ab (boot 0)
              _ _ eq_refl ltac:(vm_compute; reflexivity)) as (Hb & Hf & _).
  split; [exact Hb | exact Hf].
Defined.

(** X13. The ticker leaves alone what arrived after a flush for a full
    buffer: the item whose arrival made the worker flush is alone in the
    buffer, and a tick at most one flush interval after that flush ended
    does not flush it. *)
Theorem tick_after_capacity_flush_is_skipped (env : Env)
  (size flushInterval : Z) (l : Locals) (msg : bytes) (w : World)
  (l' : Locals) (w' : World) (d : Z) :
  wf_locals size l = true ->
  is_int size ->
  0 < size ->
  bufferSize l = size ->
  loop_body env size flushInterval l (RecvMsg msg) w = Ok (Continue l') w' ->
  0 <= d <= flushInterval ->
  batch l' = [msg]
  /\ lastFlush l' = now w'
  /\ loop_body env size flushInterval l' TickerC (elapse d w')
     = Ok (Continue l') (elapse d w').
Proof.
  intros Hwf Hint Hpos Hfull Hb Hd.
  destruct (loop_body_recv env size flushInterval l msg w Hwf Hint Hpos)
    as (l1 & w1 & l2 & Hpre & Hb2 & _ & _ & _ & Hbt & Hlf).
  rewrite Hb in Hb2. injection Hb2 as <- <-.
  replace (size <=? bufferSize l) with true in Hpre
    by (symmetry; apply Z.leb_le; lia).
  destruct (flush_ok env size l w Hwf)
    as (l3 & w3 & evs & Hf & _ & _ & Hz & Hnow & _).
  rewrite Hpre in Hf. injection Hf as <- <-.
  rewrite (batch_empty l1 Hz) in Hbt.
  split; [exact Hbt|]. split; [congruence|].
  rewrite loop_body_tick. simpl.
  replace (lastFlush l' + flushInterval <? now w' + d) with false
    by (symmetry; apply Z.ltb_ge; lia).
  reflexivity.
Qed.

Lemma tick_after_capacity_flush_is_skipped_witness :
  wf_locals 2 locals_ab = true
  /\ is_int 2
  /\ 0 < 2
  /\ bufferSize locals_ab = 2
  /\ 0 <= Second <= Second
  /\ exists l' w',
       loop_body (broker_up id) 2 Second locals_ab (RecvMsg payload_c) (boot 0)
       = Ok (Continue l') w'
       /\ batch l' = [payload_c]
       /\ loop_body (broker_up id) 2 Second l' TickerC (elapse Second w')
          = Ok (Continue l') (elapse Second w').
Proof.
  split; [reflexivity|].
  split; [unfold is_int, int_min, int_max; lia|].
  split; [lia|]. split; [reflexivity|].
  split; [vm_compute; split; discriminate|].
  eexists _, _. split; [vm_compute; reflexivity|].
  destruct (tick_after_capacity_flush_is_skipped (broker_up id) 2 Second
              locals_ab payload_c (boot 0) _ _ Second eq_refl
              ltac:(unfold is_int, int_min, int_max; lia) ltac:(lia) eq_refl
              ltac:(vm_compute; reflexivity)
              ltac:(vm_compute; split; discriminate)) as (Hb & _ & Ht).
  split; [exact Hb | exact Ht].
Defined.

(** X14. [loop] needs a positive capacity: a worker started with a
    negative [size] panics when it makes its slices, and one started with
    [size] 0 panics on the first item it takes from the inbound channel,
    at the assignment [buffer[bufferSize] = msg], after the flush of the
    empty buffer. *)
Theorem nonpositive_size_panics (env : Env)
  (size flushInterval queueSize t : Z) (msg : bytes) :
  size <= 0 ->
  0 < queueSize ->
  exec env [ActWrite msg; ActWorkerStart; ActWorkerRecv]
    (newBufferedWriterWith size flushInterval queueSize (boot t))
  = inr (if size <? 0 then "makeslice: len out of range"
         else "index out of range").
Proof.
  intros Hle Hq. unfold newBufferedWriterWith.
  cbn [exec sys_step]. unfold Write, chan_send.
  cbn [sysBuffer chClosed chQueue chCap length].
  replace (Z.of_nat 0 <? queueSize) with true
    by (symmetry; apply Z.ltb_lt; lia).
  cbn [with_buffer sysWorker sysSize sysWorld sysBuffer chQueue app
       sysFlushInterval sysDone sysTickerStopped sysTickPending sysCloser].
  unfold loop_init, make. unfold_monad.
  destruct (size <? 0) eqn:E; [reflexivity|].
  apply Z.ltb_ge in E. assert (size = 0) as -> by lia.
  reflexivity.
Qed.

Lemma nonpositive_size_panics_witness :
  0 <= 0
  /\ 0 < 1
  /\ exec (broker_up id) [ActWrite payload_a; ActWorkerStart; ActWorkerRecv]
       (newBufferedWriterWith 0 Second 1 (boot 0))
     = inr "index out of range".
Proof.
  split; [lia|]. split; [lia|].
  exact (nonpositive_size_panics (broker_up id) 0 Second 1 0 payload_a
           ltac:(lia) ltac:(lia)).
Defined.

(** ** The shutdown settles every write *)




